(** * cEvent: a shallow embedding of [cevent/cevent.py]

    The three classes of the module ([EventThread], [Event],
    [EventManager]) are embedded as operations of a small state-and-error
    monad over one record holding the manager's fields, the objects it
    refers to and the part of the runtime the methods observe.

    Conventions of the embedding.
    - Python objects that are shared by reference are kept in stores and
      named by their position: an [EventThread] by its index in [heap], an
      [Event] by its index in [_eventList] (events are only ever appended).
    - [exn] stands for the exceptions that can travel through the module:
      instances of [Exception], which the two [except Exception] clauses
      catch, and instances of [BaseException] that are not ([SystemExit],
      [KeyboardInterrupt], user classes), which they let through.
    - [time.time()] reads an arbitrary clock: the n-th read returns
      [clock n].  Timestamps are exact integers (ticks).
    - Registered callables and callbacks act on a user state [U]; they
      either return a value or raise.  A callable may or may not carry a
      [__name__].
    - Worker threads run their body in one piece.  A worker may run
      while the thread that started it is still in [Thread.start]: the
      [schedule] of the state says, for every thread that is started,
      which workers run to their end at that point (any choice of
      schedule is possible).  A worker that has not run by the time it
      is joined runs then.
    - The driver thread, when alive, is at the head of its loop or inside
      a pass; [pending] holds the tasks of that pass it has yet to
      poll. *)

From Stdlib Require Import ZArith Bool List Lia String.
From stdpp Require Import base list.
Import ListNotations.
Local Open Scope Z_scope.

(** ** Values, exceptions, outcomes *)

Inductive exn : Type :=
| RuntimeError      (* raised by [threading.Thread.join] on the current thread *)
| AttributeError    (* raised by the lookup of a missing attribute *)
| UserError (code : nat)   (* an instance of [Exception] raised by user code *)
| BaseError (code : nat).  (* an instance of [BaseException] that is not an
                              instance of [Exception] *)

(** [isinstance(e, Exception)] *)
Definition is_Exception (e : exn) : bool :=
  match e with
  | BaseError _ => false
  | _ => true
  end.

Definition val := Z.

Inductive outcome (A : Type) : Type :=
| Ok (a : A)        (* normal return *)
| Exc (e : exn)     (* an exception propagates *)
| NoResult.         (* no result: the loop budget ran out, or a reference
                       names no object (no execution produces one) *)
Arguments Ok {A} a.
Arguments Exc {A} e.
Arguments NoResult {A}.

(** Which thread executes a method. *)
Inductive thread_ref : Type :=
| MainThread
| DriverThread              (* the thread held in [_thread] *)
| WorkerThread (tid : nat). (* the [EventThread] at [heap !! tid] *)

Definition is_worker (cur : thread_ref) (tid : nat) : bool :=
  match cur with
  | WorkerThread t => Nat.eqb t tid
  | _ => false
  end.

(** ** Objects *)

(** [threading.Thread] as created by [EventManager.start]. *)
Record Thread : Type := mkThread {
  t_daemon : bool;
  t_alive : bool
}.

(** [EventThread]; [target] is the event whose [_call] the thread runs with
    [args=(True,)]. *)
Record EventThread : Type := mkEventThread {
  target : nat;
  exception : option exn;
  daemon : bool;
  isJoined : bool;
  alive : bool
}.

(** What the methods leave behind, in program order. *)
Inductive action : Type :=
| ASetLastCallTime (ev : nat) (t : Z)
| ACallable (ev : nat)
| ACallback (ev : nat)
| ASpawn (ev : nat) (tid : nat)
| AJoin (tid : nat)
| APoll (ev : nat).

Section CEvent.

Context {U : Type}.
Variable clock : nat -> Z.

(** A callable object: what calling it does, and its [__name__]
    attribute when it has one (a function or a lambda has, a
    [functools.partial] object has not). *)
Record Callable : Type := mkCallable {
  __name__ : option string;
  __call__ :> U -> outcome val * U
}.

Record Event : Type := mkEvent {
  _callable : Callable;
  _timeBetweenCalls : Z;
  _callback : option (val -> U -> outcome val * U);
  _spawnThread : bool;
  _lastCallTime : Z;
  _threads : list nat
}.

Record State : Type := mkState {
  _thread : option Thread;
  _shouldContinue : bool;
  _running : bool;
  _eventList : list Event;
  _eventsSpawnThreads : bool;
  _stopInProgress : bool;
  childException : option exn;
  heap : list EventThread;
  user : U;
  reads : nat;
  trace : list action;
  pending : list nat;
  schedule : nat -> list nat
}.

(** *** Field updates *)

Definition set_thread (x : option Thread) (s : State) : State :=
  mkState x (_shouldContinue s) (_running s) (_eventList s)
    (_eventsSpawnThreads s) (_stopInProgress s) (childException s)
    (heap s) (user s) (reads s) (trace s) (pending s) (schedule s).

Definition set_shouldContinue (x : bool) (s : State) : State :=
  mkState (_thread s) x (_running s) (_eventList s)
    (_eventsSpawnThreads s) (_stopInProgress s) (childException s)
    (heap s) (user s) (reads s) (trace s) (pending s) (schedule s).

Definition set_running (x : bool) (s : State) : State :=
  mkState (_thread s) (_shouldContinue s) x (_eventList s)
    (_eventsSpawnThreads s) (_stopInProgress s) (childException s)
    (heap s) (user s) (reads s) (trace s) (pending s) (schedule s).

Definition set_eventList (x : list Event) (s : State) : State :=
  mkState (_thread s) (_shouldContinue s) (_running s) x
    (_eventsSpawnThreads s) (_stopInProgress s) (childException s)
    (heap s) (user s) (reads s) (trace s) (pending s) (schedule s).

Definition set_stopInProgress (x : bool) (s : State) : State :=
  mkState (_thread s) (_shouldContinue s) (_running s) (_eventList s)
    (_eventsSpawnThreads s) x (childException s)
    (heap s) (user s) (reads s) (trace s) (pending s) (schedule s).

Definition set_childException (x : option exn) (s : State) : State :=
  mkState (_thread s) (_shouldContinue s) (_running s) (_eventList s)
    (_eventsSpawnThreads s) (_stopInProgress s) x
    (heap s) (user s) (reads s) (trace s) (pending s) (schedule s).

Definition set_heap (x : list EventThread) (s : State) : State :=
  mkState (_thread s) (_shouldContinue s) (_running s) (_eventList s)
    (_eventsSpawnThreads s) (_stopInProgress s) (childException s)
    x (user s) (reads s) (trace s) (pending s) (schedule s).

Definition set_user (x : U) (s : State) : State :=
  mkState (_thread s) (_shouldContinue s) (_running s) (_eventList s)
    (_eventsSpawnThreads s) (_stopInProgress s) (childException s)
    (heap s) x (reads s) (trace s) (pending s) (schedule s).

Definition set_reads (x : nat) (s : State) : State :=
  mkState (_thread s) (_shouldContinue s) (_running s) (_eventList s)
    (_eventsSpawnThreads s) (_stopInProgress s) (childException s)
    (heap s) (user s) x (trace s) (pending s) (schedule s).

Definition log (a : action) (s : State) : State :=
  mkState (_thread s) (_shouldContinue s) (_running s) (_eventList s)
    (_eventsSpawnThreads s) (_stopInProgress s) (childException s)
    (heap s) (user s) (reads s) (trace s ++ [a]) (pending s) (schedule s).

Definition set_pending (x : list nat) (s : State) : State :=
  mkState (_thread s) (_shouldContinue s) (_running s) (_eventList s)
    (_eventsSpawnThreads s) (_stopInProgress s) (childException s)
    (heap s) (user s) (reads s) (trace s) x (schedule s).

Definition set_lastCallTime (t : Z) (e : Event) : Event :=
  mkEvent (_callable e) (_timeBetweenCalls e) (_callback e) (_spawnThread e)
    t (_threads e).

Definition set_threads (l : list nat) (e : Event) : Event :=
  mkEvent (_callable e) (_timeBetweenCalls e) (_callback e) (_spawnThread e)
    (_lastCallTime e) l.

Definition set_exception (x : option exn) (t : EventThread) : EventThread :=
  mkEventThread (target t) x (daemon t) (isJoined t) (alive t).

Definition set_isJoined (x : bool) (t : EventThread) : EventThread :=
  mkEventThread (target t) (exception t) (daemon t) x (alive t).

Definition set_alive (x : bool) (t : EventThread) : EventThread :=
  mkEventThread (target t) (exception t) (daemon t) (isJoined t) x.

Definition setDaemon (x : bool) (t : EventThread) : EventThread :=
  mkEventThread (target t) (exception t) x (isJoined t) (alive t).

(** Update of the object behind a reference. *)
Definition upd_event (ev : nat) (f : Event -> Event) (s : State) : State :=
  set_eventList (alter f ev (_eventList s)) s.

Definition upd_thread (tid : nat) (f : EventThread -> EventThread)
  (s : State) : State :=
  set_heap (alter f tid (heap s)) s.

(** *** The monad *)

Definition M (A : Type) : Type := State -> outcome A * State.

Definition ret {A} (a : A) : M A := fun s => (Ok a, s).

Definition bind {A B} (m : M A) (k : A -> M B) : M B :=
  fun s =>
    match m s with
    | (Ok a, s') => k a s'
    | (Exc e, s') => (Exc e, s')
    | (NoResult, s') => (NoResult, s')
    end.

Definition raise {A} (e : exn) : M A := fun s => (Exc e, s).

Definition modify (f : State -> State) : M unit := fun s => (Ok tt, f s).

Definition gets {A} (f : State -> A) : M A := fun s => (Ok (f s), s).

(** [try: m  except Exception as ex: h ex]: only an instance of
    [Exception] is handed to the handler, anything else propagates. *)
Definition try_except {A} (m : M A) (h : exn -> M A) : M A :=
  fun s =>
    match m s with
    | (Exc e, s') => if is_Exception e then h e s' else (Exc e, s')
    | r => r
    end.

Notation "x <- m ;; k" := (bind m (fun x => k))
  (at level 100, m at next level, right associativity).
Notation "m ;;; k" := (bind m (fun _ => k))
  (at level 100, right associativity).

(** [for x in l: body x] *)
Fixpoint for_each {A} (l : list A) (body : A -> M unit) : M unit :=
  match l with
  | [] => ret tt
  | x :: l' => body x ;;; for_each l' body
  end.

(** [time.time()] *)
Definition time_time : M Z :=
  fun s => (Ok (clock (reads s)), set_reads (S (reads s)) s).

(** A user function applied to the user state. *)
Definition call_user (f : U -> outcome val * U) : M val :=
  fun s => let (r, u) := f (user s) in (r, set_user u s).

(** Reading the object behind a reference. *)
Definition get_event (ev : nat) : M Event :=
  fun s =>
    match _eventList s !! ev with
    | Some e => (Ok e, s)
    | None => (NoResult, s)
    end.

Definition get_thread (tid : nat) : M EventThread :=
  fun s =>
    match heap s !! tid with
    | Some t => (Ok t, s)
    | None => (NoResult, s)
    end.

(** The daemon flag of the running thread, which [threading.Thread.__init__]
    hands down to the thread it creates.  The main thread is not a daemon. *)
Definition current_daemon (cur : thread_ref) (s : State) : bool :=
  match cur with
  | MainThread => false
  | DriverThread =>
      match _thread s with Some th => t_daemon th | None => false end
  | WorkerThread tid =>
      match heap s !! tid with Some t => daemon t | None => false end
  end.

(** ** EventThread *)

(** [EventThread.__init__]: the new object is stored at the end of the heap
    and its position returned. *)
Definition EventThread___init__ (cur : thread_ref) (tgt : nat) : M nat :=
  fun s =>
    let self := mkEventThread tgt None (current_daemon cur s) false false in
    let self := set_exception None self in
    let self := setDaemon true self in
    let self := set_isJoined false self in
    (Ok (length (heap s)), set_heap (heap s ++ [self]) s).

(** What [_call] returns: the spawned thread, or the result of the call. *)
Inductive retval : Type :=
| RThread (tid : nat)
| RVal (v : val).

(** ** Event *)

(** [Event.__init__] *)
Definition Event___init__ (thingToCall : Callable)
  (timeBetweenCalls : Z) (spawnThread : bool)
  (callback : option (val -> U -> outcome val * U)) : Event :=
  mkEvent thingToCall timeBetweenCalls callback spawnThread 0 [].

(** The comparison of [Event._shouldCall]. *)
Definition due (lastCallTime timeBetweenCalls now : Z) : bool :=
  lastCallTime + timeBetweenCalls <? now.

(** [Event._shouldCall] *)
Definition _shouldCall (ev : nat) : M bool :=
  e <- get_event ev ;;
  now <- time_time ;;
  ret (due (_lastCallTime e) (_timeBetweenCalls e) now).

(** The [else] branch of [Event._call], for the event [e] read at [ev]:
    the timestamp, the callable, the callback. *)
Definition _call_inline (ev : nat) (e : Event) : M retval :=
  t <- time_time ;;
  modify (upd_event ev (set_lastCallTime t)) ;;;
  modify (log (ASetLastCallTime ev t)) ;;;
  modify (log (ACallable ev)) ;;;
  r <- call_user (_callable e) ;;
  match _callback e with
  | Some cb =>
      modify (log (ACallback ev)) ;;;
      r' <- call_user (cb r) ;;
      ret (RVal r')
  | None => ret (RVal r)
  end.

(** [EventThread._wrapped_run]; [_real_run] is [Thread.run], which calls
    the target, [Event._call], with [args=(True,)]: with [iAmAThread]
    true, [_call] takes its [else] branch (see [_call] below). *)
Definition _wrapped_run (tid : nat) : M unit :=
  t <- get_thread tid ;;
  try_except
    ((e <- get_event (target t) ;; _call_inline (target t) e) ;;; ret tt)
    (fun ex => modify (upd_thread tid (set_exception (Some ex)))).

(** A worker thread runs to its end: [run] is called; an exception that
    leaves [run] ends the thread and goes no further; the thread is not
    alive afterwards. *)
Definition worker_runs (tid : nat) : M unit :=
  fun s =>
    match _wrapped_run tid s with
    | (Ok _, s') => (Ok tt, upd_thread tid (set_alive false) s')
    | (Exc _, s') => (Ok tt, upd_thread tid (set_alive false) s')
    | (NoResult, s') => (NoResult, s')
    end.

(** The scheduler lets the workers of [l] that are still alive run to
    their end, one after the other. *)
Definition let_run (tid : nat) : M unit :=
  fun s =>
    match heap s !! tid with
    | Some t => if alive t then worker_runs tid s else (Ok tt, s)
    | None => (Ok tt, s)
    end.

Definition run_workers (l : list nat) : M unit := for_each l let_run.

(** [threading.Thread.start]: the thread is alive from here on, and the
    workers that the schedule names for this start run before the caller
    goes on. *)
Definition Thread_start (tid : nat) : M unit :=
  modify (upd_thread tid (set_alive true)) ;;;
  sch <- gets schedule ;;
  run_workers (sch tid).

(** [Event._call] *)
Definition _call (cur : thread_ref) (ev : nat) (iAmAThread : bool)
  : M retval :=
  e <- get_event ev ;;
  if _spawnThread e && negb iAmAThread then
    (* the message of LOGGER.debug is built from self._callable.__name__ *)
    match __name__ (_callable e) with
    | None => raise AttributeError
    | Some _ =>
        tid <- EventThread___init__ cur ev ;;
        modify (log (ASpawn ev tid)) ;;;
        Thread_start tid ;;;
        modify (upd_event ev (fun e => set_threads (_threads e ++ [tid]) e)) ;;;
        ret (RThread tid)
    end
  else _call_inline ev e.

(** [threading.Thread.join] on a worker: waits until the thread has run to
    its end. *)
Definition Thread_join (tid : nat) : M unit :=
  t <- get_thread tid ;;
  if alive t then worker_runs tid else ret tt.

(** [EventThread.join] *)
Definition EventThread_join (cur : thread_ref) (tid : nat) : M unit :=
  modify (log (AJoin tid)) ;;;
  (if negb (is_worker cur tid) then Thread_join tid else ret tt) ;;;
  modify (upd_thread tid (set_isJoined true)) ;;;
  t <- get_thread tid ;;
  match exception t with
  | Some e => raise e
  | None => ret tt
  end.

Definition thread_isJoined (s : State) (tid : nat) : bool :=
  match heap s !! tid with
  | Some t => isJoined t
  | None => false
  end.

(** [Event._joinDeadThreads] *)
Definition _joinDeadThreads (cur : thread_ref) (ev : nat) : M unit :=
  e <- get_event ev ;;
  for_each (_threads e)
    (fun i =>
       t <- get_thread i ;;
       if negb (alive t) then EventThread_join cur i else ret tt) ;;;
  modify (fun s =>
    upd_event ev
      (fun e =>
         set_threads
           (List.filter (fun i => negb (thread_isJoined s i)) (_threads e)) e)
      s).

(** [Event.callIfShouldCall] *)
Definition callIfShouldCall (cur : thread_ref) (ev : nat) : M unit :=
  modify (log (APoll ev)) ;;;
  b <- _shouldCall ev ;;
  if b then
    _call cur ev false ;;;
    _joinDeadThreads cur ev
  else ret tt.

(** [Event.join] *)
Definition Event_join (cur : thread_ref) (ev : nat) : M unit :=
  e <- get_event ev ;;
  for_each (_threads e) (EventThread_join cur) ;;;
  modify (upd_event ev (set_threads [])).

(** ** EventManager *)

(** [EventManager.__init__]; [u] is the user state the callables start
    from and [sch] the schedule of the run. *)
Definition EventManager___init__ (eventsSpawnThreads : bool) (u : U)
  (sch : nat -> list nat) : State :=
  mkState None true false [] eventsSpawnThreads false None [] u 0%nat []
    [] sch.

(** One turn of the [while] loop of [_execute] is a pass over the events;
    the events are visited by position. *)
Definition pass : M unit :=
  n <- gets (fun s => length (_eventList s)) ;;
  for_each (seq 0 n) (callIfShouldCall DriverThread).

(** The [while self._shouldContinue] loop of [_execute], with its
    [try]/[except Exception]/[break]. *)
Fixpoint while_shouldContinue (fuel : nat) : M unit :=
  fun s =>
    if _shouldContinue s then
      match fuel with
      | O => (NoResult, s)
      | S fuel' =>
          match pass s with
          | (Ok _, s') => while_shouldContinue fuel' s'
          | (Exc ex, s') =>
              if is_Exception ex
              then (Ok tt, set_childException (Some ex) s')
              else (Exc ex, s')
          | (NoResult, s') => (NoResult, s')
          end
      end
    else (Ok tt, s).

(** [EventManager._execute] *)
Definition _execute (fuel : nat) : M unit :=
  modify (set_running true) ;;;
  while_shouldContinue fuel ;;;
  modify (set_running false).

(** What is left of [_execute] for a driver that is inside a pass with
    the tasks [rest] still to poll: the rest of the [for] loop under the
    same [try], then the loop and the last line. *)
Definition _execute_rest (fuel : nat) (rest : list nat) : M unit :=
  fun s =>
    match for_each rest (callIfShouldCall DriverThread) s with
    | (Ok _, s') =>
        (while_shouldContinue fuel ;;; modify (set_running false)) s'
    | (Exc ex, s') =>
        if is_Exception ex
        then (Ok tt, set_running false (set_childException (Some ex) s'))
        else (Exc ex, s')
    | (NoResult, s') => (NoResult, s')
    end.

(** [EventManager.addEvent] *)
Definition addEvent (thingToCall : Callable)
  (timeBetweenCalls : Z)
  (callback : option (val -> U -> outcome val * U)) : M unit :=
  fun s =>
    let e := Event___init__ thingToCall timeBetweenCalls
               (_eventsSpawnThreads s) callback in
    (Ok tt, set_eventList (_eventList s ++ [e]) s).

(** [EventManager.start]: the driver is a plain [threading.Thread]; the
    new thread has no pass in progress. *)
Definition start (cur : thread_ref) : M unit :=
  modify (set_shouldContinue true) ;;;
  modify (fun s => set_thread (Some (mkThread (current_daemon cur s) false)) s) ;;;
  modify (fun s =>
    match _thread s with
    | Some th => set_pending [] (set_thread (Some (mkThread (t_daemon th) true)) s)
    | None => s
    end).

(** The driver thread, alive at the head of its loop with the
    continue-flag set, takes up a pass, polls its first [k] tasks and is
    preempted there.  A failure of one of these polls ends the thread as
    in [_execute]. *)
Definition driver_polls (k : nat) : M unit :=
  fun s =>
    match _thread s, pending s with
    | Some th, [] =>
        if t_alive th && _shouldContinue s then
          let all := seq 0 (length (_eventList s)) in
          let dead := Some (mkThread (t_daemon th) false) in
          match for_each (take k all) (callIfShouldCall DriverThread)
                  (set_running true s) with
          | (Ok _, s') => (Ok tt, set_pending (drop k all) s')
          | (Exc ex, s') =>
              if is_Exception ex
              then (Ok tt,
                    set_thread dead
                      (set_running false (set_childException (Some ex) s')))
              else (Ok tt, set_thread dead s')
          | (NoResult, s') => (NoResult, s')
          end
        else (Ok tt, s)
    | _, _ => (Ok tt, s)
    end.

(** [threading.Thread.join] on the driver thread: refuses to join the
    calling thread, otherwise waits until the driver has left [_execute]:
    the driver finishes the pass it is in and leaves the loop at its next
    test of the continue-flag.  An exception that leaves [_execute] ends
    the driver thread and goes no further. *)
Definition Thread_join_driver (cur : thread_ref) (fuel : nat) : M unit :=
  th <- gets _thread ;;
  match th with
  | None => fun s => (NoResult, s)
  | Some th =>
      match cur with
      | DriverThread => raise RuntimeError
      | _ =>
          if t_alive th then
            rest <- gets pending ;;
            modify (set_pending []) ;;;
            modify (set_running true) ;;;
            (fun s =>
               match _execute_rest fuel rest s with
               | (Ok _, s') => (Ok tt, s')
               | (Exc _, s') => (Ok tt, s')
               | (NoResult, s') => (NoResult, s')
               end) ;;;
            modify (set_thread (Some (mkThread (t_daemon th) false)))
          else ret tt
      end
  end.

(** [EventManager.stop] *)
Definition stop (cur : thread_ref) (fuel : nat) : M unit :=
  b <- gets _stopInProgress ;;
  if negb b then
    modify (set_stopInProgress true) ;;;
    modify (set_shouldContinue false) ;;;
    th <- gets _thread ;;
    match th with
    | Some _ => Thread_join_driver cur fuel
    | None => ret tt
    end ;;;
    n <- gets (fun s => length (_eventList s)) ;;
    for_each (seq 0 n) (Event_join cur) ;;;
    modify (set_stopInProgress false)
  else ret tt.

End CEvent.

(** * Properties *)

Section Properties.

Context {U : Type}.
Variable clock : nat -> Z.

Local Abbreviation State := (@State U).
Local Abbreviation Event := (@Event U).
Local Abbreviation M := (@M U).

(** ** Stepping through the monad *)

Lemma bind_ok {A B} (m : M A) (k : A -> M B) s a s' :
  m s = (Ok a, s') -> bind m k s = k a s'.
Proof. unfold bind; intros ->; reflexivity. Qed.

Lemma bind_exc {A B} (m : M A) (k : A -> M B) s e s' :
  m s = (Exc e, s') -> bind m k s = (Exc e, s').
Proof. unfold bind; intros ->; reflexivity. Qed.

Lemma bind_noresult {A B} (m : M A) (k : A -> M B) s s' :
  m s = (NoResult, s') -> bind m k s = (NoResult, s').
Proof. unfold bind; intros ->; reflexivity. Qed.

Lemma for_each_app {A} (l1 l2 : list A) (body : A -> M unit) s s1 :
  for_each l1 body s = (Ok tt, s1) ->
  for_each (l1 ++ l2) body s = for_each l2 body s1.
Proof.
  revert s; induction l1 as [|x l1 IH]; simpl; intros s H.
  - unfold ret in H; congruence.
  - unfold bind in *; destruct (body x s) as [[[]|e|] s0]; try discriminate.
    apply IH; exact H.
Qed.

Lemma for_each_raises {A} (l1 l2 : list A) x (body : A -> M unit) s s1 e s2 :
  for_each l1 body s = (Ok tt, s1) ->
  body x s1 = (Exc e, s2) ->
  for_each (l1 ++ x :: l2) body s = (Exc e, s2).
Proof.
  intros H1 H2; rewrite (for_each_app _ _ _ _ _ H1); simpl.
  apply bind_exc; exact H2.
Qed.

Lemma get_event_some ev (e : Event) (s : State) :
  _eventList s !! ev = Some e -> get_event ev s = (Ok e, s).
Proof. unfold get_event; intros ->; reflexivity. Qed.

Lemma get_thread_some tid t (s : State) :
  heap s !! tid = Some t -> get_thread tid s = (Ok t, s).
Proof. unfold get_thread; intros ->; reflexivity. Qed.

(** ** Computations that respect a relation between states *)

Section Preserves.

Variable R : State -> State -> Prop.
Hypothesis R_refl : forall s, R s s.
Hypothesis R_trans : forall s1 s2 s3, R s1 s2 -> R s2 s3 -> R s1 s3.

Definition preserves {A} (m : M A) : Prop := forall s, R s (snd (m s)).

Lemma preserves_ret {A} (a : A) : preserves (ret a).
Proof. intros s; apply R_refl. Qed.

Lemma preserves_raise {A} e : preserves (@raise U A e).
Proof. intros s; apply R_refl. Qed.

Lemma preserves_gets {A} (f : State -> A) : preserves (gets f).
Proof. intros s; apply R_refl. Qed.

Lemma preserves_modify f : (forall s, R s (f s)) -> preserves (modify f).
Proof. intros H s; apply H. Qed.

Lemma preserves_bind {A B} (m : M A) (k : A -> M B) :
  preserves m -> (forall a, preserves (k a)) -> preserves (bind m k).
Proof.
  intros Hm Hk s; unfold bind.
  specialize (Hm s); destruct (m s) as [[a|e|] s']; simpl in *; auto.
  eapply R_trans; [exact Hm | apply Hk].
Qed.

Lemma preserves_try_except {A} (m : M A) h :
  preserves m -> (forall e, preserves (h e)) -> preserves (try_except m h).
Proof.
  intros Hm Hh s; unfold try_except.
  specialize (Hm s); destruct (m s) as [[a|e|] s']; simpl in *; auto.
  destruct (is_Exception e); simpl; [|exact Hm].
  eapply R_trans; [exact Hm | apply Hh].
Qed.

Lemma preserves_for_each {A} (l : list A) body :
  (forall x, preserves (body x)) -> preserves (for_each l body).
Proof.
  intros Hb; induction l as [|x l IH]; simpl.
  - apply preserves_ret.
  - apply preserves_bind; auto.
Qed.

Lemma preserves_get_event ev : preserves (get_event ev).
Proof. intros s; unfold get_event; destruct (_ !! _); apply R_refl. Qed.

Lemma preserves_get_thread tid : preserves (get_thread tid).
Proof. intros s; unfold get_thread; destruct (_ !! _); apply R_refl. Qed.

Ltac pres :=
  repeat match goal with
    | |- preserves (ret _) => apply preserves_ret
    | |- preserves (raise _) => apply preserves_raise
    | |- preserves (gets _) => apply preserves_gets
    | |- preserves (get_event _) => apply preserves_get_event
    | |- preserves (get_thread _) => apply preserves_get_thread
    | |- preserves (bind _ _) => apply preserves_bind; [|intros ?]
    | |- preserves (try_except _ _) => apply preserves_try_except; [|intros ?]
    | |- preserves (for_each _ _) => apply preserves_for_each; intros ?
    | |- preserves (modify _) => apply preserves_modify; intros ?
    | |- preserves (if ?b then _ else _) => destruct b
    | |- preserves (match ?o with Some _ => _ | None => _ end) => destruct o
    | |- preserves (match ?c with
                    | MainThread => _ | DriverThread => _
                    | WorkerThread _ => _ end) => destruct c
    end.

(** *** What a worker does: clock reads, user code, log entries, the
    timestamp of its event, its own fields *)

Section Worker.

Hypothesis R_reads : forall n s, R s (set_reads n s).
Hypothesis R_user : forall u s, R s (set_user u s).
Hypothesis R_log : forall a s, R s (log a s).
Hypothesis R_last : forall ev t s, R s (upd_event ev (set_lastCallTime t) s).
Hypothesis R_exception :
  forall tid x s, R s (upd_thread tid (set_exception x) s).
Hypothesis R_finished :
  forall tid s, R s (upd_thread tid (set_alive false) s).
Hypothesis R_isJoined :
  forall tid s, R s (upd_thread tid (set_isJoined true) s).
Hypothesis R_started :
  forall tid s, R s (upd_thread tid (set_alive true) s).

Lemma preserves_time_time : preserves (time_time clock).
Proof. intros s; apply R_reads. Qed.

Lemma preserves_call_user f : preserves (call_user f).
Proof.
  intros s; unfold call_user; destruct (f (user s)); apply R_user.
Qed.

Lemma preserves_call_inline ev e : preserves (_call_inline clock ev e).
Proof.
  unfold _call_inline.
  pres; auto using preserves_time_time, preserves_call_user.
Qed.

Lemma preserves_call_true cur ev : preserves (_call clock cur ev true).
Proof.
  unfold _call; apply preserves_bind; [apply preserves_get_event|intros e].
  rewrite andb_false_r; apply preserves_call_inline.
Qed.

Lemma preserves_wrapped_run tid : preserves (_wrapped_run clock tid).
Proof. unfold _wrapped_run; pres; auto using preserves_call_inline. Qed.

Lemma preserves_worker_runs tid : preserves (worker_runs clock tid).
Proof.
  intros s; unfold worker_runs.
  pose proof (preserves_wrapped_run tid s) as H.
  destruct (_wrapped_run clock tid s) as [[[]|x|] s1]; simpl in H |- *;
    try exact H; (eapply R_trans; [exact H | apply R_finished]).
Qed.

Lemma preserves_let_run tid : preserves (let_run clock tid).
Proof.
  intros s; unfold let_run.
  destruct (heap s !! tid) as [t|]; [|apply R_refl].
  destruct (alive t); [apply preserves_worker_runs | apply R_refl].
Qed.

Lemma preserves_run_workers l : preserves (run_workers clock l).
Proof. apply preserves_for_each, preserves_let_run. Qed.

Lemma preserves_Thread_start tid : preserves (Thread_start clock tid).
Proof. unfold Thread_start; pres; auto using preserves_run_workers. Qed.

Lemma preserves_Thread_join tid : preserves (Thread_join clock tid).
Proof. unfold Thread_join; pres; auto using preserves_worker_runs. Qed.

Lemma preserves_EventThread_join cur tid :
  preserves (EventThread_join clock cur tid).
Proof. unfold EventThread_join; pres; auto using preserves_Thread_join. Qed.

End Worker.

(** *** What the methods of [Event] and the driver's passes do in
    addition: updates of events and of the heap *)

Section Methods.

Hypothesis R_reads : forall n s, R s (set_reads n s).
Hypothesis R_user : forall u s, R s (set_user u s).
Hypothesis R_log : forall a s, R s (log a s).
Hypothesis R_event : forall ev f s, R s (upd_event ev f s).
Hypothesis R_heap : forall h s, R s (set_heap h s).

Lemma R_thread_of_heap tid f s : R s (upd_thread tid f s).
Proof. apply R_heap. Qed.

Hint Resolve R_thread_of_heap : core.

Lemma preserves_call cur ev b : preserves (_call clock cur ev b).
Proof.
  unfold _call, EventThread___init__.
  pres; auto using preserves_call_inline, preserves_Thread_start,
    R_thread_of_heap.
  intros st; apply R_heap.
Qed.

Lemma preserves_joinDeadThreads cur ev :
  preserves (_joinDeadThreads clock cur ev).
Proof.
  unfold _joinDeadThreads; pres;
    auto using preserves_EventThread_join, R_thread_of_heap.
Qed.

Lemma preserves_shouldCall ev : preserves (_shouldCall clock ev).
Proof. unfold _shouldCall; pres; auto using preserves_time_time. Qed.

Lemma preserves_callIfShouldCall cur ev :
  preserves (callIfShouldCall clock cur ev).
Proof.
  unfold callIfShouldCall; pres;
    auto using preserves_shouldCall, preserves_call,
      preserves_joinDeadThreads.
Qed.

Lemma preserves_Event_join cur ev : preserves (Event_join clock cur ev).
Proof.
  unfold Event_join; pres;
    auto using preserves_EventThread_join, R_thread_of_heap.
Qed.

Lemma preserves_pass : preserves (pass clock).
Proof. unfold pass; pres; auto using preserves_callIfShouldCall. Qed.

(** *** And the driver: the running flag, the captured failure, the
    thread handle, the pass in progress *)

Hypothesis R_running : forall b s, R s (set_running b s).
Hypothesis R_childException : forall x s, R s (set_childException x s).
Hypothesis R_set_thread : forall x s, R s (set_thread x s).
Hypothesis R_pending : forall l s, R s (set_pending l s).

Lemma preserves_while fuel : preserves (while_shouldContinue clock fuel).
Proof.
  induction fuel as [|fuel IH]; intros s; simpl.
  - destruct (_shouldContinue s); apply R_refl.
  - destruct (_shouldContinue s); [|apply R_refl].
    pose proof (preserves_pass s) as Hp.
    destruct (pass clock s) as [[[]|x|] s1]; simpl in Hp; auto.
    + eapply R_trans; [exact Hp | apply IH].
    + destruct (is_Exception x); simpl; [|exact Hp].
      eapply R_trans; [exact Hp | apply R_childException].
Qed.

Lemma preserves_execute fuel : preserves (_execute clock fuel).
Proof. unfold _execute; pres; auto using preserves_while. Qed.

Lemma preserves_execute_rest fuel rest :
  preserves (_execute_rest clock fuel rest).
Proof.
  intros s; unfold _execute_rest.
  pose proof (preserves_for_each rest
                (callIfShouldCall clock DriverThread)
                (preserves_callIfShouldCall DriverThread) s) as Hp.
  destruct (for_each rest (callIfShouldCall clock DriverThread) s)
    as [[[]|x|] s1]; simpl in Hp; auto.
  - eapply R_trans; [exact Hp|].
    assert (H : preserves
                  (bind (while_shouldContinue clock fuel)
                     (fun _ => modify (set_running false))))
      by (pres; auto using preserves_while).
    apply H.
  - destruct (is_Exception x); simpl; [|exact Hp].
    eapply R_trans; [exact Hp|].
    eapply R_trans; [apply R_childException | apply R_running].
Qed.

Lemma preserves_Thread_join_driver cur fuel :
  preserves (Thread_join_driver clock cur fuel).
Proof.
  unfold Thread_join_driver.
  apply preserves_bind; [apply preserves_gets|intros [th|]].
  - destruct cur; pres; auto;
      match goal with
      | |- preserves (fun _ => match _execute_rest _ _ ?r _ with _ => _ end) =>
          intros st; pose proof (preserves_execute_rest fuel r st) as H;
          destruct (_execute_rest clock fuel r st) as [[[]|x|] s1]; exact H
      end.
  - intros s; apply R_refl.
Qed.

Lemma preserves_driver_polls k : preserves (driver_polls clock k).
Proof.
  intros s; unfold driver_polls.
  destruct (_thread s) as [th|]; [|apply R_refl].
  destruct (pending s); [|apply R_refl].
  destruct (t_alive th && _shouldContinue s); [|apply R_refl].
  pose proof (preserves_for_each
                (take k (seq 0 (length (_eventList s))))
                (callIfShouldCall clock DriverThread)
                (preserves_callIfShouldCall DriverThread)
                (set_running true s)) as Hp.
  destruct (for_each _ _ (set_running true s)) as [[[]|x|] s1];
    simpl in Hp |- *.
  - eapply R_trans; [apply R_running|].
    eapply R_trans; [exact Hp | apply R_pending].
  - eapply R_trans; [apply R_running|].
    eapply R_trans; [exact Hp|].
    destruct (is_Exception x); simpl; [|apply R_set_thread].
    eapply R_trans; [apply R_childException|].
    eapply R_trans; [apply R_running | apply R_set_thread].
  - eapply R_trans; [apply R_running | exact Hp].
Qed.

End Methods.

End Preserves.

(** ** Due-ness *)

Lemma due_spec last interval now :
  due last interval now = true <-> last + interval < now.
Proof. unfold due; apply Z.ltb_lt. Qed.

(** C5 (as amended): a task is judged due exactly when the clock reading
    is strictly later than [lastInvocation + interval]; a poll at exactly
    [lastInvocation + interval] does not fire it. *)
Theorem C5_shouldCall_strict (s : State) ev (e : Event) :
  _eventList s !! ev = Some e ->
  exists b,
    _shouldCall clock ev s = (Ok b, set_reads (S (reads s)) s) /\
    (b = true <->
       _lastCallTime e + _timeBetweenCalls e < clock (reads s)) /\
    (clock (reads s) = _lastCallTime e + _timeBetweenCalls e -> b = false).
Proof.
  intros He.
  exists (due (_lastCallTime e) (_timeBetweenCalls e) (clock (reads s))).
  split; [|split].
  - unfold _shouldCall.
    rewrite (bind_ok _ _ _ _ _ (get_event_some _ _ _ He)).
    reflexivity.
  - apply due_spec.
  - intros ->; unfold due; apply Z.ltb_irrefl.
Qed.

(** ** Synchronous dispatch *)

Definition lastCallTime_of (s : State) (ev : nat) : option Z :=
  _lastCallTime <$> (_eventList s !! ev).

Definition threads_of (s : State) (ev : nat) : option (list nat) :=
  _threads <$> (_eventList s !! ev).

Lemma lookup_upd_event (s : State) ev f :
  _eventList (upd_event ev f s) !! ev = f <$> (_eventList s !! ev).
Proof. unfold upd_event; simpl; apply list_lookup_alter_eq. Qed.

(** C7: for a task configured for synchronous dispatch, [_call] stores the
    clock reading as the last-invocation timestamp, then invokes the
    callable, then the callback (when there is one) on the callable's
    result, in this order, and returns the callback's result, or the
    callable's own result when no callback is configured. *)
Theorem C7_sync_dispatch cur (s : State) ev (e : Event) v u1 :
  _eventList s !! ev = Some e ->
  _spawnThread e = false ->
  _callable e (user s) = (Ok v, u1) ->
  match _callback e with
  | None =>
      exists s',
        _call clock cur ev false s = (Ok (RVal v), s') /\
        trace s' =
          trace s ++ [ASetLastCallTime ev (clock (reads s)); ACallable ev] /\
        lastCallTime_of s' ev = Some (clock (reads s)) /\
        user s' = u1
  | Some cb =>
      forall w u2, cb v u1 = (Ok w, u2) ->
      exists s',
        _call clock cur ev false s = (Ok (RVal w), s') /\
        trace s' =
          trace s ++ [ASetLastCallTime ev (clock (reads s));
                      ACallable ev; ACallback ev] /\
        lastCallTime_of s' ev = Some (clock (reads s)) /\
        user s' = u2
  end.
Proof.
  intros He Hsync Hcall.
  unfold _call.
  rewrite (bind_ok _ _ _ _ _ (get_event_some _ _ _ He)), Hsync; simpl.
  unfold _call_inline, bind, time_time, modify, call_user; simpl.
  rewrite Hcall.
  destruct (_callback e) as [cb|].
  - intros w u2 Hcb; simpl; rewrite Hcb.
    eexists; split; [reflexivity|]; simpl.
    split; [rewrite <- !app_assoc; reflexivity|].
    split; [|reflexivity].
    unfold lastCallTime_of; simpl.
    rewrite list_lookup_alter_eq, He; reflexivity.
  - eexists; split; [reflexivity|]; simpl.
    split; [rewrite <- !app_assoc; reflexivity|].
    split; [|reflexivity].
    unfold lastCallTime_of; simpl.
    rewrite list_lookup_alter_eq, He; reflexivity.
Qed.

(** ** The first poll of a fresh task *)

Definition trace_ext (s s' : State) : Prop :=
  exists rest, trace s' = trace s ++ rest.

Lemma trace_ext_refl s : trace_ext s s.
Proof. exists []; symmetry; apply app_nil_r. Qed.

Lemma trace_ext_trans s1 s2 s3 :
  trace_ext s1 s2 -> trace_ext s2 s3 -> trace_ext s1 s3.
Proof.
  intros [r1 H1] [r2 H2]; exists (r1 ++ r2).
  rewrite H2, H1, app_assoc; reflexivity.
Qed.

Lemma trace_ext_same (s s' : State) : trace s' = trace s -> trace_ext s s'.
Proof. intros H; exists []; rewrite H; symmetry; apply app_nil_r. Qed.

Lemma trace_ext_joinDeadThreads cur ev s :
  trace_ext s (snd (_joinDeadThreads clock cur ev s)).
Proof.
  apply (preserves_joinDeadThreads trace_ext trace_ext_refl trace_ext_trans);
    intros; try (apply trace_ext_same; reflexivity).
  eexists; reflexivity.
Qed.

Lemma trace_ext_Thread_start tid s :
  trace_ext s (snd (Thread_start clock tid s)).
Proof.
  apply (preserves_Thread_start trace_ext trace_ext_refl trace_ext_trans);
    intros; try (apply trace_ext_same; reflexivity).
  eexists; reflexivity.
Qed.

(** The first thing a dispatch leaves in the trace. *)
Definition first_action (s : State) (ev : nat) (e : Event) : action :=
  if _spawnThread e then ASpawn ev (length (heap s))
  else ASetLastCallTime ev (clock (reads s)).

(** The dispatch gets as far as its first action: the task is dispatched
    synchronously, or its callable carries a [__name__]. *)
Definition dispatchable (e : Event) : Prop :=
  _spawnThread e = false \/ __name__ (_callable e) <> None.

Lemma call_first_action cur ev (e : Event) s :
  _eventList s !! ev = Some e ->
  dispatchable e ->
  exists rest,
    trace (snd (_call clock cur ev false s)) =
      trace s ++ first_action s ev e :: rest.
Proof.
  intros He Hd; unfold _call, first_action.
  rewrite (bind_ok _ _ _ _ _ (get_event_some _ _ _ He)).
  destruct (_spawnThread e) eqn:Hsp; simpl.
  - destruct Hd as [Hd|Hd]; [congruence|].
    destruct (__name__ (_callable e)) as [nm|]; [|contradiction].
    unfold bind at 1, EventThread___init__.
    unfold bind at 1, modify.
    set (s1 := log _ _).
    destruct (trace_ext_Thread_start (length (heap s)) s1) as [r Hr].
    unfold bind.
    destruct (Thread_start clock (length (heap s)) s1) as [[[]|x|] s2];
      simpl in Hr |- *; rewrite Hr; subst s1; simpl;
      rewrite <- app_assoc; eexists; reflexivity.
  - unfold _call_inline, bind, time_time, modify, call_user; simpl.
    destruct (_callable e (user s)) as [[v|x|] u1]; simpl;
      try (eexists; rewrite <- app_assoc; reflexivity).
    destruct (_callback e) as [cb|]; simpl;
      [|eexists; rewrite <- app_assoc; reflexivity].
    destruct (cb v u1) as [[w|x|] u2]; simpl;
      eexists; rewrite <- !app_assoc; reflexivity.
Qed.


(** ** A second stop *)

Lemma stop_when_in_progress cur fuel (s : State) :
  _stopInProgress s = true ->
  stop clock cur fuel s = (Ok tt, s).
Proof.
  intros H; unfold stop, bind, gets; simpl; rewrite H; reflexivity.
Qed.

(** C8: a [stop] that starts while the stop-in-progress flag is set joins
    nothing, raises nothing and leaves the whole state as it was. *)
Theorem C8_stop_in_progress_noop cur fuel (s : State) :
  _stopInProgress s = true ->
  stop clock cur fuel s = (Ok tt, s).
Proof. apply stop_when_in_progress. Qed.

(** ** Daemon flags *)

(** Every thread object keeps its daemon flag. *)
Definition daemon_kept (s s' : State) : Prop :=
  forall i t, heap s !! i = Some t ->
              exists t', heap s' !! i = Some t' /\ daemon t' = daemon t.

Lemma daemon_kept_refl s : daemon_kept s s.
Proof. intros i t H; eauto. Qed.

Lemma daemon_kept_trans s1 s2 s3 :
  daemon_kept s1 s2 -> daemon_kept s2 s3 -> daemon_kept s1 s3.
Proof.
  intros H1 H2 i t Ht.
  destruct (H1 i t Ht) as (t1 & Ht1 & Hd1).
  destruct (H2 i t1 Ht1) as (t2 & Ht2 & Hd2).
  exists t2; split; [exact Ht2 | congruence].
Qed.

Lemma daemon_kept_alter (f : EventThread -> EventThread) tid (s : State) :
  (forall t, daemon (f t) = daemon t) ->
  daemon_kept s (upd_thread tid f s).
Proof.
  intros Hf i t Ht; simpl; rewrite list_lookup_alter.
  destruct (decide (tid = i)) as [->|]; [|eauto].
  rewrite Ht; simpl; eauto.
Qed.

Lemma daemon_kept_Thread_start tid s :
  daemon_kept s (snd (Thread_start clock tid s)).
Proof.
  apply (preserves_Thread_start daemon_kept daemon_kept_refl
           daemon_kept_trans);
    repeat match goal with |- forall _, _ => intro end;
    first [ apply daemon_kept_alter; reflexivity
          | intros i0 t0 Ht0; eauto ].
Qed.

Lemma call_inline_returns_value ev (e : Event) (s s' : State) r :
  _call_inline clock ev e s = (Ok r, s') -> exists v, r = RVal v.
Proof.
  unfold _call_inline, bind, time_time, modify, call_user; simpl.
  destruct (_callable e (user s)) as [[v|x|] u1]; simpl;
    try discriminate.
  destruct (_callback e) as [cb|]; simpl.
  - destruct (cb v u1) as [[w|x|] u2]; simpl; try discriminate.
    intros H; inversion H; eauto.
  - intros H; inversion H; eauto.
Qed.

(** A worker that runs to its end raises nothing in the thread that
    started it. *)
Lemma worker_runs_no_exc tid (s : State) x :
  fst (worker_runs clock tid s) <> Exc x.
Proof.
  unfold worker_runs.
  destruct (_wrapped_run clock tid s) as [[[]|y|] s']; discriminate.
Qed.

Lemma for_each_no_exc {A} (l : list A) (body : A -> M unit) :
  (forall a (s : State) x, fst (body a s) <> Exc x) ->
  forall (s : State) x, fst (for_each l body s) <> Exc x.
Proof.
  intros Hb; induction l as [|a l IH]; intros s x; simpl; [discriminate|].
  unfold bind.
  pose proof (Hb a s) as Ha.
  destruct (body a s) as [[[]|y|] s1]; simpl in Ha |- *;
    [apply IH | | discriminate].
  intros H; apply (Ha y); reflexivity.
Qed.

Lemma Thread_start_no_exc tid (s : State) x :
  fst (Thread_start clock tid s) <> Exc x.
Proof.
  unfold Thread_start, bind, modify, gets, run_workers; simpl.
  apply for_each_no_exc.
  intros a st y; unfold let_run.
  destruct (heap st !! a) as [t|]; [|discriminate].
  destruct (alive t); [apply worker_runs_no_exc|discriminate].
Qed.

(** C9 (as amended): every worker thread spawned by an asynchronous
    dispatch is marked as a daemon thread; the dispatch of a callable
    with a [__name__] raises nothing, and when no worker runs while the
    new thread is started, it returns the new thread, alive.  The driver
    thread created by [start] is a plain thread: it takes the daemon flag
    of the thread that calls [start], so it is not a daemon when started
    from the main thread. *)
Theorem C9_daemon_flags cur (s : State) :
  (forall ev s' tid,
     _call clock cur ev false s = (Ok (RThread tid), s') ->
     tid = length (heap s) /\
     exists t, heap s' !! tid = Some t /\ daemon t = true) /\
  (forall ev (e : Event) x,
     _eventList s !! ev = Some e ->
     _spawnThread e = true ->
     __name__ (_callable e) <> None ->
     fst (_call clock cur ev false s) <> Exc x) /\
  (forall ev (e : Event),
     _eventList s !! ev = Some e ->
     _spawnThread e = true ->
     __name__ (_callable e) <> None ->
     schedule s (length (heap s)) = [] ->
     exists s' t,
       _call clock cur ev false s = (Ok (RThread (length (heap s))), s') /\
       heap s' !! length (heap s) = Some t /\
       daemon t = true /\ alive t = true) /\
  (exists s',
     start cur s = (Ok tt, s') /\
     _thread s' = Some (mkThread (current_daemon cur s) true)) /\
  current_daemon MainThread s = false.
Proof.
  split; [|split; [|split; [|split]]].
  - intros ev s' tid; unfold _call, bind at 1, get_event.
    destruct (_eventList s !! ev) as [e|]; [|discriminate].
    destruct (_spawnThread e); simpl.
    + destruct (__name__ (_callable e)) as [nm|]; [|discriminate].
      unfold bind at 1, EventThread___init__.
      unfold bind at 1, modify.
      set (s1 := log _ _).
      pose proof (daemon_kept_Thread_start (length (heap s)) s1) as Hk.
      unfold bind.
      destruct (Thread_start clock (length (heap s)) s1) as [[[]|x|] s2];
        try discriminate.
      intros H; inversion H; subst; split; [reflexivity|].
      destruct (Hk (length (heap s))
                  (mkEventThread ev None true false false))
        as (t' & Ht' & Hd').
      { subst s1; simpl; apply list_lookup_middle; reflexivity. }
      exists t'; split; [exact Ht' | exact Hd'].
    + intros H; apply call_inline_returns_value in H as [v Hv].
      discriminate.
  - intros ev e x He Hs Hn; unfold _call.
    rewrite (bind_ok _ _ _ _ _ (get_event_some _ _ _ He)), Hs; simpl.
    destruct (__name__ (_callable e)) as [nm|]; [|contradiction].
    unfold bind at 1, EventThread___init__.
    unfold bind at 1, modify.
    set (s1 := log _ _).
    pose proof (Thread_start_no_exc (length (heap s)) s1) as Hk.
    unfold bind.
    destruct (Thread_start clock (length (heap s)) s1) as [[[]|y|] s2];
      simpl in Hk |- *; [discriminate | | discriminate].
    exfalso; apply (Hk y); reflexivity.
  - intros ev e He Hs Hn Hsch; unfold _call.
    rewrite (bind_ok _ _ _ _ _ (get_event_some _ _ _ He)), Hs; simpl.
    destruct (__name__ (_callable e)) as [nm|]; [|contradiction].
    unfold bind, EventThread___init__, modify, Thread_start, bind, modify,
      gets; simpl.
    rewrite Hsch; simpl.
    eexists; eexists; split; [reflexivity|]; simpl.
    rewrite list_lookup_alter_eq, list_lookup_middle by reflexivity.
    simpl; auto.
  - eexists; split; reflexivity.
  - reflexivity.
Qed.

(** ** The driver loop *)

(** [passes n s]: the state after [n] complete turns of the driver's loop
    from [s], none of which raised. *)
Fixpoint passes (n : nat) (s : State) : option State :=
  match n with
  | O => Some s
  | S n' =>
      if _shouldContinue s then
        match pass clock s with
        | (Ok _, s') => passes n' s'
        | _ => None
        end
      else None
  end.

Lemma while_after_passes n m (s sn : State) :
  passes n s = Some sn ->
  while_shouldContinue clock (n + m) s = while_shouldContinue clock m sn.
Proof.
  revert s; induction n as [|n IH]; simpl; intros s H.
  - congruence.
  - destruct (_shouldContinue s); [|discriminate].
    destruct (pass clock s) as [[[]|x|] s']; try discriminate.
    apply IH; exact H.
Qed.

Lemma pass_raises (s s1 s2 : State) l1 k l2 e :
  seq 0 (length (_eventList s)) = l1 ++ k :: l2 ->
  for_each l1 (callIfShouldCall clock DriverThread) s = (Ok tt, s1) ->
  callIfShouldCall clock DriverThread k s1 = (Exc e, s2) ->
  pass clock s = (Exc e, s2).
Proof.
  intros Hl H1 H2; unfold pass, bind, gets; simpl.
  rewrite Hl; eapply for_each_raises; eauto.
Qed.

Definition same_running (s s' : State) : Prop := _running s' = _running s.

Lemma same_running_trans (s1 s2 s3 : State) :
  same_running s1 s2 -> same_running s2 s3 -> same_running s1 s3.
Proof. unfold same_running; congruence. Qed.

Lemma same_running_polls cur l s :
  same_running s (snd (for_each l (callIfShouldCall clock cur) s)).
Proof.
  apply (preserves_for_each same_running (fun _ => eq_refl)
           same_running_trans).
  intros ev.
  apply (preserves_callIfShouldCall same_running (fun _ => eq_refl)
           same_running_trans); reflexivity.
Qed.

Lemma passes_running n : forall s sn : State,
  passes n s = Some sn -> _running sn = _running s.
Proof.
  induction n as [|n IH]; simpl; intros s sn H; [congruence|].
  destruct (_shouldContinue s); [|discriminate].
  pose proof (same_running_polls DriverThread
                (seq 0 (length (_eventList s))) s) as Hp.
  unfold pass, bind, gets in H.
  destruct (for_each (seq 0 (length (_eventList s)))
              (callIfShouldCall clock DriverThread) s) as [[[]|x|] s1];
    try discriminate.
  rewrite (IH _ _ H); exact Hp.
Qed.

(** C2 (as amended): when, in some turn of the driver loop, polling a
    task raises an instance of [Exception], the loop stores the exception
    in [childException], visits none of the remaining tasks of that pass,
    leaves the loop, and [_execute] returns with the running flag set to
    false: the final state is the state at the raise with just these two
    fields written.  An exception that is not an instance of [Exception]
    is not caught: it leaves [_execute] from the state at the raise, with
    nothing stored and the running flag still true. *)
Theorem C2_driver_captures_failure n fuel (s sn s1 s2 : State) l1 k l2 e :
  passes n (set_running true s) = Some sn ->
  _shouldContinue sn = true ->
  seq 0 (length (_eventList sn)) = l1 ++ k :: l2 ->
  for_each l1 (callIfShouldCall clock DriverThread) sn = (Ok tt, s1) ->
  callIfShouldCall clock DriverThread k s1 = (Exc e, s2) ->
  if is_Exception e then
    _execute clock (n + S fuel) s =
      (Ok tt, set_running false (set_childException (Some e) s2)) /\
    childException (set_running false (set_childException (Some e) s2)) =
      Some e /\
    _running (set_running false (set_childException (Some e) s2)) = false /\
    trace (set_running false (set_childException (Some e) s2)) = trace s2
  else
    _execute clock (n + S fuel) s = (Exc e, s2) /\
    _running s2 = true.
Proof.
  intros Hn Hc Hl H1 H2.
  assert (He : _execute clock (n + S fuel) s =
               if is_Exception e
               then (Ok tt, set_running false (set_childException (Some e) s2))
               else (Exc e, s2)).
  { unfold _execute, bind, modify.
    rewrite (while_after_passes _ _ _ _ Hn); simpl.
    rewrite Hc, (pass_raises _ _ _ _ _ _ _ Hl H1 H2).
    destruct (is_Exception e); reflexivity. }
  destruct (is_Exception e).
  - split; [exact He|repeat split].
  - split; [exact He|].
    pose proof (passes_running _ _ _ Hn) as Hr; simpl in Hr.
    pose proof (same_running_polls DriverThread l1 sn) as Hr1.
    rewrite H1 in Hr1.
    pose proof (preserves_callIfShouldCall same_running
                  (fun _ => eq_refl) same_running_trans
                  (fun _ _ => eq_refl) (fun _ _ => eq_refl)
                  (fun _ _ => eq_refl) (fun _ _ _ => eq_refl)
                  (fun _ _ => eq_refl) DriverThread k s1) as Hr2.
    rewrite H2 in Hr2; unfold same_running in *; simpl in *; congruence.
Qed.

(** ** Reaping finished workers *)

(** The workers a reap pass over [l] joins, in order, and the captured
    failure that ends the pass, if any: the pass skips the workers that are
    alive, joins the finished ones, and ends at the first finished worker
    that holds an exception. *)
Fixpoint reap_scan (h : list EventThread) (l : list nat)
  : list nat * option exn :=
  match l with
  | [] => ([], None)
  | i :: l' =>
      match h !! i with
      | Some t =>
          if alive t then reap_scan h l'
          else
            match exception t with
            | Some x => ([i], Some x)
            | None => (i :: fst (reap_scan h l'), snd (reap_scan h l'))
            end
      | None => ([], None)
      end
  end.

Definition mark_joined (l : list nat) (h : list EventThread)
  : list EventThread :=
  fold_left (fun h i => alter (set_isJoined true) i h) l h.

Definition heap_isJoined (h : list EventThread) (i : nat) : bool :=
  match h !! i with
  | Some t => isJoined t
  | None => false
  end.

Definition result_of (failure : option exn) : outcome unit :=
  match failure with
  | Some x => Exc x
  | None => Ok tt
  end.

Lemma reap_scan_alter h i l :
  reap_scan (alter (set_isJoined true) i h) l = reap_scan h l.
Proof.
  induction l as [|j l IH]; simpl; [reflexivity|].
  rewrite list_lookup_alter.
  destruct (decide (i = j)) as [->|Hne].
  - destruct (h !! j) as [t|]; simpl; [|reflexivity].
    rewrite IH; reflexivity.
  - rewrite IH; reflexivity.
Qed.

Lemma EventThread_join_dead cur tid t (s : State) :
  heap s !! tid = Some t ->
  alive t = false ->
  EventThread_join clock cur tid s =
    (result_of (exception t),
     upd_thread tid (set_isJoined true) (log (AJoin tid) s)).
Proof.
  intros Ht Ha; unfold EventThread_join, bind, modify; simpl.
  assert (Hj : Thread_join clock tid (log (AJoin tid) s) =
               (Ok tt, log (AJoin tid) s)).
  { unfold Thread_join.
    rewrite (bind_ok _ _ _ _ _
               (get_thread_some tid t (log (AJoin tid) s) Ht)), Ha.
    reflexivity. }
  assert (Hpre : (if negb (is_worker cur tid)
                  then Thread_join clock tid else ret tt)
                   (log (AJoin tid) s) = (Ok tt, log (AJoin tid) s)).
  { destruct (negb (is_worker cur tid)); [exact Hj | reflexivity]. }
  rewrite Hpre.
  unfold get_thread; simpl.
  rewrite list_lookup_alter_eq, Ht; simpl.
  destruct (exception t); reflexivity.
Qed.

Lemma reap_loop cur l : forall s : State,
  Forall (fun i => (i < length (heap s))%nat) l ->
  exists s',
    for_each l
      (fun i =>
         bind (get_thread i)
           (fun t => if negb (alive t)
                     then EventThread_join clock cur i else ret tt)) s =
      (result_of (snd (reap_scan (heap s) l)), s') /\
    trace s' = trace s ++ map AJoin (fst (reap_scan (heap s) l)) /\
    heap s' = mark_joined (fst (reap_scan (heap s) l)) (heap s) /\
    _eventList s' = _eventList s.
Proof.
  induction l as [|i l IH]; intros s Hv.
  - exists s; simpl; rewrite app_nil_r; auto.
  - inversion Hv as [|? ? Hi Hl]; subst.
    destruct (lookup_lt_is_Some_2 _ _ Hi) as [t Ht].
    cbn [for_each reap_scan]; rewrite Ht.
    unfold bind at 1.
    rewrite (bind_ok _ _ _ _ _ (get_thread_some i t _ Ht)).
    destruct (alive t) eqn:Ha; cbn [negb].
    + apply IH; exact Hl.
    + rewrite (EventThread_join_dead cur i t s Ht Ha).
      destruct (exception t) as [x|]; cbn [result_of].
      * eexists; split; [reflexivity|]; simpl; auto.
      * set (s1 := upd_thread i (set_isJoined true) (log (AJoin i) s)).
        destruct (IH s1) as (s' & Hr & Htr & Hh & He).
        { simpl; rewrite length_alter; exact Hl. }
        simpl in Hr, Htr, Hh, He.
        rewrite reap_scan_alter in Hr, Htr, Hh.
        exists s'; split; [exact Hr|].
        split; [rewrite Htr, <- app_assoc; reflexivity|].
        split; [exact Hh | exact He].
Qed.

(** C3 (as amended): [_joinDeadThreads] visits the tracked workers in
    insertion order and joins the finished ones.  When none of them holds
    a captured failure the pass returns normally and the tracked
    collection becomes the old one without the workers marked as joined.
    The first finished worker that holds a captured failure ends the pass
    with that failure: no later worker is visited and the tracked
    collection is left as it was, so the workers joined in that pass, the
    failing one included, stay tracked. *)
Theorem C3_reap_finished_workers cur (s : State) ev (e : Event) :
  _eventList s !! ev = Some e ->
  Forall (fun i => (i < length (heap s))%nat) (_threads e) ->
  let joined := fst (reap_scan (heap s) (_threads e)) in
  let failure := snd (reap_scan (heap s) (_threads e)) in
  exists s',
    _joinDeadThreads clock cur ev s = (result_of failure, s') /\
    trace s' = trace s ++ map AJoin joined /\
    heap s' = mark_joined joined (heap s) /\
    threads_of s' ev =
      Some (match failure with
            | Some _ => _threads e
            | None =>
                List.filter (fun i => negb (heap_isJoined (heap s') i))
                  (_threads e)
            end).
Proof.
  intros He Hv joined failure.
  destruct (reap_loop cur (_threads e) s Hv) as (s1 & Hr & Htr & Hh & Hev).
  fold joined in Htr, Hh; fold failure in Hr.
  unfold _joinDeadThreads.
  rewrite (bind_ok _ _ _ _ _ (get_event_some _ _ _ He)).
  unfold bind at 1; rewrite Hr.
  destruct failure as [x|]; cbn [result_of].
  - exists s1; repeat split; auto.
    unfold threads_of; rewrite Hev, He; reflexivity.
  - eexists; split; [reflexivity|]; simpl.
    repeat split; auto.
    unfold threads_of; simpl.
    rewrite list_lookup_alter_eq, Hev, He; reflexivity.
Qed.

(** ** Joining all workers of a task *)

(** The tracked collections of all events are the same in both states. *)
Definition same_threads (s s' : State) : Prop :=
  _threads <$> _eventList s' = _threads <$> _eventList s.

(** A worker marked as joined stays so. *)
Definition joined_stay (s s' : State) : Prop :=
  forall i, heap_isJoined (heap s) i = true ->
            heap_isJoined (heap s') i = true.

Lemma map_alter_same {A B} (g : A -> B) (f : A -> A) i (l : list A) :
  (forall x, g (f x) = g x) -> g <$> alter f i l = g <$> l.
Proof.
  intros H; apply list_eq; intros j.
  rewrite !list_lookup_fmap, list_lookup_alter.
  destruct (decide (i = j)) as [->|]; [|reflexivity].
  destruct (l !! j); simpl; [rewrite H|]; reflexivity.
Qed.

Lemma same_threads_EventThread_join cur tid s :
  same_threads s (snd (EventThread_join clock cur tid s)).
Proof.
  apply (preserves_EventThread_join same_threads); unfold same_threads;
    try reflexivity; try congruence.
  intros ev t s0; simpl; apply map_alter_same; reflexivity.
Qed.

Lemma heap_isJoined_alter f i j h :
  (forall t, isJoined t = true -> isJoined (f t) = true) ->
  heap_isJoined h j = true ->
  heap_isJoined (alter f i h) j = true.
Proof.
  unfold heap_isJoined; intros Hf; rewrite list_lookup_alter.
  destruct (decide (i = j)) as [->|]; [|auto].
  destruct (h !! j); simpl; auto.
Qed.

Lemma joined_stay_EventThread_join cur tid s :
  joined_stay s (snd (EventThread_join clock cur tid s)).
Proof.
  apply (preserves_EventThread_join joined_stay); unfold joined_stay;
    auto; intros; simpl; try assumption;
    apply heap_isJoined_alter; auto.
Qed.

(** A worker that has finished stays so. *)
Definition heap_finished (h : list EventThread) (i : nat) : bool :=
  match h !! i with
  | Some t => negb (alive t)
  | None => false
  end.

Definition finished_stay (s s' : State) : Prop :=
  forall i, heap_finished (heap s) i = true ->
            heap_finished (heap s') i = true.

Lemma heap_finished_alter f i j h :
  (forall t, alive t = false -> alive (f t) = false) ->
  heap_finished h j = true ->
  heap_finished (alter f i h) j = true.
Proof.
  unfold heap_finished; intros Hf; rewrite list_lookup_alter.
  destruct (decide (i = j)) as [->|]; [|auto].
  destruct (h !! j) as [t|]; simpl; [|auto].
  destruct (alive t) eqn:Ha; [discriminate|].
  rewrite (Hf t Ha); reflexivity.
Qed.

Lemma finished_stay_EventThread_join cur tid s :
  finished_stay s (snd (EventThread_join clock cur tid s)).
Proof.
  apply (preserves_EventThread_join finished_stay); unfold finished_stay;
    auto; intros; simpl; try assumption;
    apply heap_finished_alter; auto.
Qed.

(** [EventThread.join] raises nothing but what the thread holds at the
    end. *)
Lemma EventThread_join_inv cur tid (s s' : State) r :
  EventThread_join clock cur tid s = (r, s') ->
  r = NoResult \/
  exists t,
    heap s' !! tid = Some t /\
    isJoined t = true /\
    r = result_of (exception t) /\
    (is_worker cur tid = false -> alive t = false).
Proof.
  unfold EventThread_join, bind at 1, modify.
  unfold bind at 1.
  assert (Hj : forall st : State,
             match Thread_join clock tid st with
             | (Ok _, s1) => heap_finished (heap s1) tid = true
             | (Exc _, _) => False
             | (NoResult, _) => True
             end).
  { intros st; unfold Thread_join, bind, get_thread.
    destruct (heap st !! tid) as [t|] eqn:Ht; [|exact I].
    destruct (alive t) eqn:Ha.
    - unfold worker_runs, _wrapped_run, bind, get_thread; rewrite Ht.
      pose proof (preserves_wrapped_run
                    (fun s1 s2 : State =>
                       is_Some (heap s1 !! tid) -> is_Some (heap s2 !! tid))
                    (fun _ H => H) (fun _ _ _ H1 H2 H => H2 (H1 H))) as Hp.
      unfold preserves, _wrapped_run, bind, get_thread in Hp.
      specialize (Hp (fun _ _ H => H) (fun _ _ H => H) (fun _ _ H => H)
                    (fun _ _ _ H => H)).
      assert (Hpp : forall (f : EventThread -> EventThread) i (s0 : State),
                 is_Some (heap s0 !! tid) ->
                 is_Some (heap (upd_thread i f s0) !! tid)).
      { intros f i s0 [t0 H0]; simpl; rewrite list_lookup_alter.
        destruct (decide (i = tid)) as [->|]; rewrite ?H0; simpl; eauto. }
      specialize (Hp (fun i x s0 => Hpp _ i s0) tid st).
      rewrite Ht in Hp.
      destruct (try_except _ _ st) as [[[]|x|] s1]; simpl in Hp |- *;
        try exact I;
        unfold heap_finished; simpl; rewrite list_lookup_alter_eq;
        destruct Hp as [t1 ->]; eauto.
    - unfold ret, heap_finished; rewrite Ht, Ha; reflexivity. }
  destruct (negb (is_worker cur tid)) eqn:Hw.
  - specialize (Hj (log (AJoin tid) s)).
    destruct (Thread_join clock tid (log (AJoin tid) s)) as [[[]|x|] s1];
      [| contradiction | intros H; inversion H; auto].
    unfold bind, modify, get_thread; simpl.
    rewrite list_lookup_alter_eq.
    unfold heap_finished in Hj.
    destruct (heap s1 !! tid) as [t1|] eqn:E; simpl;
      [|intros H; inversion H; auto].
    intros H; right; exists (set_isJoined true t1).
    assert (Hs' : heap s' !! tid = Some (set_isJoined true t1)).
    { destruct (exception t1); inversion H; subst; simpl;
        rewrite list_lookup_alter_eq, E; reflexivity. }
    split; [exact Hs'|]; split; [reflexivity|]; split.
    + destruct (exception t1) eqn:Ex; inversion H; subst; simpl;
        rewrite Ex; reflexivity.
    + intros _; simpl; destruct (alive t1); [discriminate|reflexivity].
  - unfold ret, bind, modify, get_thread; simpl.
    rewrite list_lookup_alter_eq.
    destruct (heap s !! tid) as [t1|] eqn:E; simpl;
      [|intros H; inversion H; auto].
    intros H; right; exists (set_isJoined true t1).
    assert (Hs' : heap s' !! tid = Some (set_isJoined true t1)).
    { destruct (exception t1); inversion H; subst; simpl;
        rewrite list_lookup_alter_eq, E; reflexivity. }
    split; [exact Hs'|]; split; [reflexivity|]; split.
    + destruct (exception t1) eqn:Ex; inversion H; subst; simpl;
        rewrite Ex; reflexivity.
    + apply negb_false_iff in Hw; congruence.
Qed.

Lemma EventThread_join_ok_joined cur tid (s s' : State) :
  EventThread_join clock cur tid s = (Ok tt, s') ->
  heap_isJoined (heap s') tid = true /\
  (is_worker cur tid = false -> heap_finished (heap s') tid = true).
Proof.
  intros H; apply EventThread_join_inv in H as [H|(t & Ht & Hj & _ & Ha)];
    [discriminate|].
  unfold heap_isJoined, heap_finished; rewrite Ht; split; [exact Hj|].
  intros Hw; rewrite (Ha Hw); reflexivity.
Qed.

(** Joined by [cur]: marked as joined and, unless it is the joining
    thread itself, finished. *)
Definition joined_by (cur : thread_ref) (h : list EventThread) (i : nat)
  : Prop :=
  heap_isJoined h i = true /\
  (is_worker cur i = false -> heap_finished h i = true).

Lemma join_loop_ok cur l : forall s s' : State,
  for_each l (EventThread_join clock cur) s = (Ok tt, s') ->
  Forall (joined_by cur (heap s')) l.
Proof.
  induction l as [|i l IH]; intros s s' H; [constructor|].
  simpl in H; unfold bind in H.
  destruct (EventThread_join clock cur i s) as [[[]|x|] s1] eqn:E;
    try discriminate.
  constructor; [|eapply IH; exact H].
  pose proof (preserves_for_each joined_stay (fun _ _ => id)
                (fun _ _ _ H1 H2 i H => H2 i (H1 i H)) l
                (EventThread_join clock cur)
                (joined_stay_EventThread_join cur) s1) as Hs.
  pose proof (preserves_for_each finished_stay (fun _ _ => id)
                (fun _ _ _ H1 H2 i H => H2 i (H1 i H)) l
                (EventThread_join clock cur)
                (finished_stay_EventThread_join cur) s1) as Hf.
  rewrite H in Hs, Hf.
  destruct (EventThread_join_ok_joined _ _ _ _ E) as [Hj Hd].
  split; [apply Hs, Hj | intros Hw; apply Hf, Hd, Hw].
Qed.

Lemma for_each_exc_inv {A} (l : list A) (body : A -> M unit) :
  forall s x s',
    for_each l body s = (Exc x, s') ->
    exists l1 k l2 s1,
      l = l1 ++ k :: l2 /\
      for_each l1 body s = (Ok tt, s1) /\
      body k s1 = (Exc x, s').
Proof.
  induction l as [|a l IH]; intros s x s' H; [discriminate|].
  simpl in H; unfold bind in H.
  destruct (body a s) as [[[]|y|] s0] eqn:E; try discriminate.
  - destruct (IH _ _ _ H) as (l1 & k & l2 & s1 & -> & H1 & H2).
    exists (a :: l1), k, l2, s1; split; [reflexivity|].
    split; [|exact H2].
    simpl; unfold bind; rewrite E; exact H1.
  - inversion H; subst.
    exists [], a, l, s; auto.
Qed.

Lemma upd_event_id ev (f : Event -> Event) (e : Event) (s : State) :
  _eventList s !! ev = Some e -> f e = e -> upd_event ev f s = s.
Proof.
  intros He Hf; destruct s; unfold upd_event, set_eventList; simpl in *.
  f_equal; apply list_eq; intros i; rewrite list_lookup_alter.
  destruct (decide (ev = i)) as [<-|]; [|reflexivity].
  rewrite He; simpl; congruence.
Qed.

Lemma Event_join_nil cur ev (e : Event) (s : State) :
  _eventList s !! ev = Some e ->
  _threads e = [] ->
  Event_join clock cur ev s = (Ok tt, s).
Proof.
  intros He Hnil; unfold Event_join.
  rewrite (bind_ok _ _ _ _ _ (get_event_some _ _ _ He)), Hnil; simpl.
  unfold bind, ret, modify.
  rewrite (upd_event_id ev _ e s He); [reflexivity|].
  destruct e; unfold set_threads; simpl in *; congruence.
Qed.

(** C4 (as amended): [Event.join] joins the tracked workers in order.
    With no tracked worker it returns at once, without error and without
    changing anything.  When it returns normally every worker it tracked
    is marked as joined and, unless it is the calling thread itself, has
    finished, and the tracked collection is empty.  It ends with an
    exception exactly when the joins of a front part of the collection
    return and the join of the next worker raises: that exception is the
    one this worker holds, the later workers are not joined, and the
    tracked collection is left as it was, not cleared. *)
Theorem C4_join_all cur (s : State) ev (e : Event) :
  _eventList s !! ev = Some e ->
  (_threads e = [] -> Event_join clock cur ev s = (Ok tt, s)) /\
  (forall s',
     Event_join clock cur ev s = (Ok tt, s') ->
     threads_of s' ev = Some [] /\
     Forall (joined_by cur (heap s')) (_threads e)) /\
  (forall x s',
     Event_join clock cur ev s = (Exc x, s') <->
     exists l1 k l2 s1,
       _threads e = l1 ++ k :: l2 /\
       for_each l1 (EventThread_join clock cur) s = (Ok tt, s1) /\
       EventThread_join clock cur k s1 = (Exc x, s')) /\
  (forall x s',
     Event_join clock cur ev s = (Exc x, s') ->
     threads_of s' ev = Some (_threads e) /\
     exists k t,
       k ∈ _threads e /\
       heap s' !! k = Some t /\
       exception t = Some x /\ isJoined t = true).
Proof.
  intros He.
  pose proof (preserves_for_each same_threads (fun _ => eq_refl)
                (fun s1 s2 s3 (H1 : same_threads s1 s2)
                     (H2 : same_threads s2 s3) => eq_trans H2 H1)
                (_threads e) (EventThread_join clock cur)
                (same_threads_EventThread_join cur) s) as Hsame.
  split; [apply Event_join_nil; exact He|].
  assert (Hshape : forall x s',
            Event_join clock cur ev s = (Exc x, s') <->
            for_each (_threads e) (EventThread_join clock cur) s =
              (Exc x, s')).
  { intros x s'; unfold Event_join.
    rewrite (bind_ok _ _ _ _ _ (get_event_some _ _ _ He)).
    unfold bind, modify.
    destruct (for_each (_threads e) (EventThread_join clock cur) s)
      as [[[]|y|] s1]; split; intros H; inversion H; reflexivity. }
  split; [|split].
  - unfold Event_join.
    rewrite (bind_ok _ _ _ _ _ (get_event_some _ _ _ He)).
    intros s'; unfold bind, modify.
    destruct (for_each (_threads e) (EventThread_join clock cur) s)
      as [[[]|x|] s1] eqn:E; try discriminate.
    intros H; inversion H; subst s'; clear H.
    split.
    + unfold threads_of; simpl; rewrite list_lookup_alter_eq.
      simpl in Hsame; unfold same_threads in Hsame.
      assert (Hl : (ev < length (_eventList s1))%nat).
      { rewrite <- (length_fmap _threads), Hsame, length_fmap.
        eapply lookup_lt_Some; exact He. }
      destruct (lookup_lt_is_Some_2 _ _ Hl) as [e1 ->]; reflexivity.
    + simpl; eapply join_loop_ok; exact E.
  - intros x s'; rewrite Hshape; split.
    + apply for_each_exc_inv.
    + intros (l1 & k & l2 & s1 & -> & H1 & H2).
      eapply for_each_raises; eauto.
  - intros x s' H; apply Hshape in H.
    split.
    + rewrite H in Hsame; simpl in Hsame; unfold same_threads in Hsame.
      unfold threads_of.
      rewrite <- !list_lookup_fmap, Hsame, list_lookup_fmap, He.
      reflexivity.
    + apply for_each_exc_inv in H as (l1 & k & l2 & s1 & Hl & _ & H2).
      apply EventThread_join_inv in H2 as [H2|(t & Ht & Hj & Hr & _)];
        [discriminate|].
      exists k, t; split; [rewrite Hl; apply elem_of_app; right; left|].
      split; [exact Ht|]; split; [|exact Hj].
      destruct (exception t); simpl in Hr; congruence.
Qed.

(** ** A stop that ends with an exception *)

Definition same_flag (s s' : State) : Prop :=
  _stopInProgress s' = _stopInProgress s.

Lemma same_flag_trans (s1 s2 s3 : State) :
  same_flag s1 s2 -> same_flag s2 s3 -> same_flag s1 s3.
Proof. unfold same_flag; congruence. Qed.

Lemma same_flag_Event_joins cur l s :
  same_flag s (snd (for_each l (Event_join clock cur) s)).
Proof.
  apply (preserves_for_each same_flag (fun _ => eq_refl) same_flag_trans).
  intros ev; apply (preserves_Event_join same_flag (fun _ => eq_refl) same_flag_trans);
    reflexivity.
Qed.

Lemma same_flag_Thread_join_driver cur fuel s :
  same_flag s (snd (Thread_join_driver clock cur fuel s)).
Proof.
  apply (preserves_Thread_join_driver same_flag (fun _ => eq_refl) same_flag_trans);
    reflexivity.
Qed.

Lemma same_flag_execute fuel s :
  same_flag s (snd (_execute clock fuel s)).
Proof.
  apply (preserves_execute same_flag (fun _ => eq_refl) same_flag_trans);
    reflexivity.
Qed.

Lemma same_flag_driver_polls k s :
  same_flag s (snd (driver_polls clock k s)).
Proof.
  apply (preserves_driver_polls same_flag (fun _ => eq_refl) same_flag_trans);
    reflexivity.
Qed.

Lemma same_flag_Thread_join tid s :
  same_flag s (snd (Thread_join clock tid s)).
Proof.
  apply (preserves_Thread_join same_flag (fun _ => eq_refl) same_flag_trans);
    reflexivity.
Qed.

(** What can happen to a manager: calls of its public methods from any
    thread, the driver thread running [_execute] or a part of a pass, a
    worker running to its end. *)
Inductive step : Type :=
| DoAddEvent (thingToCall : @Callable U) (timeBetweenCalls : Z)
    (callback : option (val -> U -> outcome val * U))
| DoStart (cur : thread_ref)
| DoStop (cur : thread_ref) (fuel : nat)
| DoExecute (fuel : nat)
| DoDriverPolls (k : nat)
| DoWorker (tid : nat).

Definition run_step (st : step) : M unit :=
  match st with
  | DoAddEvent f ival cb => addEvent f ival cb
  | DoStart cur => start cur
  | DoStop cur fuel => stop clock cur fuel
  | DoExecute fuel => _execute clock fuel
  | DoDriverPolls k => driver_polls clock k
  | DoWorker tid => Thread_join clock tid
  end.

Fixpoint run_steps (l : list step) (s : State) : State :=
  match l with
  | [] => s
  | st :: l' => run_steps l' (snd (run_step st s))
  end.

Lemma flag_stays_step st (s : State) :
  _stopInProgress s = true ->
  _stopInProgress (snd (run_step st s)) = true.
Proof.
  intros H; destruct st as [f ival cb|cur|cur fuel|fuel|k|tid]; simpl.
  - exact H.
  - exact H.
  - rewrite stop_when_in_progress by exact H; exact H.
  - rewrite same_flag_execute; exact H.
  - rewrite same_flag_driver_polls; exact H.
  - rewrite same_flag_Thread_join; exact H.
Qed.

Lemma flag_stays_steps l : forall s : State,
  _stopInProgress s = true ->
  _stopInProgress (run_steps l s) = true.
Proof.
  induction l as [|st l IH]; intros s H; simpl; [exact H|].
  apply IH, flag_stays_step, H.
Qed.

Lemma stop_exc_flag cur fuel (s s' : State) x :
  stop clock cur fuel s = (Exc x, s') ->
  _stopInProgress s = false /\ _stopInProgress s' = true.
Proof.
  unfold stop, bind at 1, gets.
  destruct (_stopInProgress s) eqn:Hf; cbn [negb]; [discriminate|].
  unfold bind at 1, modify.
  unfold bind at 1.
  unfold bind at 1; cbn beta iota.
  set (s0 := set_shouldContinue false (set_stopInProgress true s)).
  assert (H0 : _stopInProgress s0 = true) by reflexivity.
  assert (Hj : forall (m : M unit) st r s1,
             (forall st', same_flag st' (snd (m st'))) ->
             _stopInProgress st = true ->
             m st = (r, s1) -> _stopInProgress s1 = true).
  { intros m st r s1 Hm Hst E; specialize (Hm st); rewrite E in Hm.
    unfold same_flag in Hm; simpl in Hm; congruence. }
  unfold bind at 1.
  destruct ((match _thread s0 with
             | Some _ => Thread_join_driver clock cur fuel
             | None => ret tt
             end) s0) as [r1 s1] eqn:E1.
  assert (H1 : _stopInProgress s1 = true).
  { eapply (Hj _ s0 r1 s1); [|exact H0|exact E1].
    intros st'; destruct (_thread s0);
      [apply same_flag_Thread_join_driver | reflexivity]. }
  destruct r1 as [[]|y|].
  - unfold bind at 1, gets.
    unfold bind, modify.
    destruct (for_each (seq 0 (length (_eventList s1)))
                (Event_join clock cur) s1) as [r2 s2] eqn:E2.
    assert (H2 : _stopInProgress s2 = true).
    { eapply (Hj _ s1 r2 s2); [|exact H1|exact E2].
      intros st'; apply same_flag_Event_joins. }
    destruct r2 as [[]|y|]; intros H; inversion H; subst; auto.
  - intros H; inversion H; subst; auto.
  - discriminate.
Qed.

(** C10: when a join performed inside [stop] propagates an exception,
    [stop] ends with the stop-in-progress flag still set.  Nothing resets
    the flag afterwards: whatever happens to the manager later, every
    further [stop] returns at once without joining anything and without
    changing the state, so no drain is ever completed again. *)
Theorem C10_failed_stop_is_final cur fuel (s s' : State) x :
  stop clock cur fuel s = (Exc x, s') ->
  _stopInProgress s' = true /\
  forall later : list step,
    _stopInProgress (run_steps later s') = true /\
    forall cur' fuel',
      stop clock cur' fuel' (run_steps later s') =
        (Ok tt, run_steps later s').
Proof.
  intros H; destruct (stop_exc_flag _ _ _ _ _ H) as [_ Hs'].
  split; [exact Hs'|].
  intros later.
  pose proof (flag_stays_steps later s' Hs') as Hl.
  split; [exact Hl|].
  intros cur' fuel'; apply stop_when_in_progress; exact Hl.
Qed.

(** ** What stop does with a worker's failure *)

Definition same_child (s s' : State) : Prop :=
  childException s' = childException s.

Lemma same_child_trans (s1 s2 s3 : State) :
  same_child s1 s2 -> same_child s2 s3 -> same_child s1 s3.
Proof. unfold same_child; congruence. Qed.

Lemma same_child_Event_joins cur l s :
  same_child s (snd (for_each l (Event_join clock cur) s)).
Proof.
  apply (preserves_for_each same_child (fun _ => eq_refl) same_child_trans).
  intros ev.
  apply (preserves_Event_join same_child (fun _ => eq_refl)
           same_child_trans); reflexivity.
Qed.

(** *** No method reads [childException] *)

(** The state with the captured failure blanked. *)
Definition forget (s : State) : State := set_childException None s.

(** A computation ignores [childException]: from two states that differ
    in this field only, it has the same outcome and leaves states that
    differ in this field only. *)
Definition ignores {A} (m : M A) : Prop :=
  forall s1 s2, forget s1 = forget s2 ->
    fst (m s1) = fst (m s2) /\ forget (snd (m s1)) = forget (snd (m s2)).

Lemma ignores_prim {A} (m : M A) :
  (forall s, fst (m (forget s)) = fst (m s) /\
             forget (snd (m (forget s))) = forget (snd (m s))) ->
  ignores m.
Proof.
  intros H s1 s2 E.
  destruct (H s1) as [H1 H1']; destruct (H s2) as [H2 H2'].
  rewrite E in H1, H1'; split; congruence.
Qed.

Lemma ignores_ret {A} (a : A) : ignores (ret a).
Proof. intros s1 s2 E; split; [reflexivity | exact E]. Qed.

Lemma ignores_raise {A} e : ignores (@raise U A e).
Proof. intros s1 s2 E; split; [reflexivity | exact E]. Qed.

Lemma ignores_gets {A} (f : State -> A) :
  (forall s, f (forget s) = f s) -> ignores (gets f).
Proof.
  intros Hf s1 s2 E; split; [|exact E].
  simpl; rewrite <- (Hf s1), <- (Hf s2), E; reflexivity.
Qed.

Lemma ignores_modify f :
  (forall s, forget (f (forget s)) = forget (f s)) -> ignores (modify f).
Proof.
  intros Hf s1 s2 E; split; [reflexivity|].
  simpl; rewrite <- (Hf s1), <- (Hf s2), E; reflexivity.
Qed.

Lemma ignores_bind {A B} (m : M A) (k : A -> M B) :
  ignores m -> (forall a, ignores (k a)) -> ignores (bind m k).
Proof.
  intros Hm Hk s1 s2 E; unfold bind.
  destruct (Hm s1 s2 E) as [H1 H2].
  destruct (m s1) as [[a1|e1|] t1], (m s2) as [[a2|e2|] t2];
    simpl in H1, H2; try discriminate; inversion H1; subst.
  - apply Hk; exact H2.
  - split; [reflexivity | exact H2].
  - split; [reflexivity | exact H2].
Qed.

Lemma ignores_try_except {A} (m : M A) h :
  ignores m -> (forall e, ignores (h e)) -> ignores (try_except m h).
Proof.
  intros Hm Hh s1 s2 E; unfold try_except.
  destruct (Hm s1 s2 E) as [H1 H2].
  destruct (m s1) as [[a1|e1|] t1], (m s2) as [[a2|e2|] t2];
    simpl in H1, H2; try discriminate; inversion H1; subst.
  - split; [reflexivity | exact H2].
  - destruct (is_Exception e2); [apply Hh; exact H2|].
    split; [reflexivity | exact H2].
  - split; [reflexivity | exact H2].
Qed.

Lemma ignores_for_each {A} (l : list A) body :
  (forall x, ignores (body x)) -> ignores (for_each l body).
Proof.
  intros Hb; induction l as [|x l IH]; simpl.
  - apply ignores_ret.
  - apply ignores_bind; auto.
Qed.

(** An outcome-preserving wrapper keeps the property. *)
Lemma ignores_swallow (m : M unit) (f : State -> State) :
  ignores m ->
  (forall s, forget (f (forget s)) = forget (f s)) ->
  ignores (fun s =>
             match m s with
             | (Ok _, s') => (Ok tt, f s')
             | (Exc _, s') => (Ok tt, f s')
             | (NoResult, s') => (NoResult, s')
             end).
Proof.
  intros Hm Hf s1 s2 E.
  destruct (Hm s1 s2 E) as [H1 H2].
  destruct (m s1) as [[a1|e1|] t1], (m s2) as [[a2|e2|] t2];
    simpl in H1, H2 |- *; try discriminate;
    try (split; [reflexivity|];
         rewrite <- (Hf t1), <- (Hf t2), H2; reflexivity).
  split; [reflexivity | exact H2].
Qed.

Ltac ign :=
  repeat match goal with
    | |- ignores (ret _) => apply ignores_ret
    | |- ignores (raise _) => apply ignores_raise
    | |- ignores (gets _) => apply ignores_gets; intros ?; reflexivity
    | |- ignores (modify _) => apply ignores_modify; intros ?; reflexivity
    | |- ignores (bind _ _) => apply ignores_bind; [|intros ?]
    | |- ignores (try_except _ _) => apply ignores_try_except; [|intros ?]
    | |- ignores (for_each _ _) => apply ignores_for_each; intros ?
    | |- ignores (if ?b then _ else _) => destruct b
    | |- ignores (match ?o with Some _ => _ | None => _ end) => destruct o
    | |- ignores (match ?c with
                  | MainThread => _ | DriverThread => _
                  | WorkerThread _ => _ end) => destruct c
    end.

Lemma ignores_get_event ev : ignores (get_event ev).
Proof.
  apply ignores_prim; intros s; unfold get_event; simpl.
  destruct (_eventList s !! ev); split; reflexivity.
Qed.

Lemma ignores_get_thread tid : ignores (get_thread tid).
Proof.
  apply ignores_prim; intros s; unfold get_thread; simpl.
  destruct (heap s !! tid); split; reflexivity.
Qed.

Lemma ignores_time_time : ignores (time_time clock).
Proof. apply ignores_prim; intros s; split; reflexivity. Qed.

Lemma ignores_call_user f : ignores (call_user f).
Proof.
  apply ignores_prim; intros s; unfold call_user; simpl.
  destruct (f (user s)); split; reflexivity.
Qed.

Lemma ignores_call_inline ev e : ignores (_call_inline clock ev e).
Proof.
  unfold _call_inline; ign;
    auto using ignores_time_time, ignores_call_user.
Qed.

Lemma ignores_wrapped_run tid : ignores (_wrapped_run clock tid).
Proof.
  unfold _wrapped_run; ign;
    auto using ignores_get_thread, ignores_get_event, ignores_call_inline.
Qed.

Lemma ignores_worker_runs tid : ignores (worker_runs clock tid).
Proof.
  unfold worker_runs.
  apply (ignores_swallow (_wrapped_run clock tid)
           (upd_thread tid (set_alive false)));
    [apply ignores_wrapped_run | reflexivity].
Qed.

Lemma ignores_let_run tid : ignores (let_run clock tid).
Proof.
  intros s1 s2 E; unfold let_run.
  assert (Hh : heap s1 = heap s2) by exact (f_equal heap E).
  rewrite Hh.
  destruct (heap s2 !! tid) as [t|]; [|split; [reflexivity | exact E]].
  destruct (alive t); [apply ignores_worker_runs; exact E|].
  split; [reflexivity | exact E].
Qed.

Lemma ignores_Thread_start tid : ignores (Thread_start clock tid).
Proof.
  unfold Thread_start, run_workers; ign; auto using ignores_let_run.
Qed.

Lemma ignores_call cur ev b : ignores (_call clock cur ev b).
Proof.
  unfold _call; ign;
    auto using ignores_get_event, ignores_call_inline, ignores_Thread_start.
  apply ignores_prim; intros st; split; reflexivity.
Qed.

Lemma ignores_Thread_join tid : ignores (Thread_join clock tid).
Proof.
  unfold Thread_join; ign;
    auto using ignores_get_thread, ignores_worker_runs.
Qed.

Lemma ignores_EventThread_join cur tid :
  ignores (EventThread_join clock cur tid).
Proof.
  unfold EventThread_join; ign;
    auto using ignores_get_thread, ignores_Thread_join.
Qed.

Lemma ignores_joinDeadThreads cur ev :
  ignores (_joinDeadThreads clock cur ev).
Proof.
  unfold _joinDeadThreads; ign;
    auto using ignores_get_event, ignores_get_thread,
      ignores_EventThread_join.
Qed.

Lemma ignores_callIfShouldCall cur ev :
  ignores (callIfShouldCall clock cur ev).
Proof.
  unfold callIfShouldCall, _shouldCall; ign;
    auto using ignores_get_event, ignores_time_time, ignores_call,
      ignores_joinDeadThreads.
Qed.

Lemma ignores_Event_join cur ev : ignores (Event_join clock cur ev).
Proof.
  unfold Event_join; ign;
    auto using ignores_get_event, ignores_EventThread_join.
Qed.

Lemma ignores_pass : ignores (pass clock).
Proof. unfold pass; ign; auto using ignores_callIfShouldCall. Qed.

Lemma ignores_while fuel : ignores (while_shouldContinue clock fuel).
Proof.
  induction fuel as [|fuel IH]; intros s1 s2 E; simpl;
    assert (Hc : _shouldContinue s1 = _shouldContinue s2)
      by exact (f_equal _shouldContinue E);
    rewrite Hc; destruct (_shouldContinue s2);
    try (split; [reflexivity | exact E]).
  destruct (ignores_pass s1 s2 E) as [H1 H2].
  destruct (pass clock s1) as [[a1|e1|] t1], (pass clock s2) as [[a2|e2|] t2];
    simpl in H1, H2; try discriminate; inversion H1; subst.
  - apply IH; exact H2.
  - destruct (is_Exception e2); split; try reflexivity; exact H2.
  - split; [reflexivity | exact H2].
Qed.

Lemma ignores_execute_rest fuel rest :
  ignores (_execute_rest clock fuel rest).
Proof.
  intros s1 s2 E; unfold _execute_rest.
  destruct (ignores_for_each rest (callIfShouldCall clock DriverThread)
              (ignores_callIfShouldCall DriverThread) s1 s2 E) as [H1 H2].
  destruct (for_each rest _ s1) as [[a1|e1|] t1],
           (for_each rest _ s2) as [[a2|e2|] t2];
    simpl in H1, H2; try discriminate; inversion H1; subst.
  - assert (H : ignores (bind (while_shouldContinue clock fuel)
                           (fun _ => modify (set_running false))))
      by (ign; auto using ignores_while).
    apply H; exact H2.
  - destruct (is_Exception e2); split; try reflexivity; try exact H2.
    simpl; exact (f_equal (set_running false) H2).
  - split; [reflexivity | exact H2].
Qed.

Lemma ignores_Thread_join_driver cur fuel :
  ignores (Thread_join_driver clock cur fuel).
Proof.
  unfold Thread_join_driver.
  apply ignores_bind; [apply ignores_gets; intros ?; reflexivity|].
  intros [th|]; [|apply ignores_prim; intros s; split; reflexivity].
  destruct cur; ign;
    match goal with
    | |- ignores (fun _ => match _execute_rest _ _ ?r _ with _ => _ end) =>
        apply (ignores_swallow (_execute_rest clock fuel r) (fun s => s));
          [apply ignores_execute_rest | reflexivity]
    end.
Qed.

Lemma ignores_stop cur fuel : ignores (stop clock cur fuel).
Proof.
  unfold stop; ign;
    auto using ignores_Thread_join_driver, ignores_Event_join.
Qed.

(** Joining the driver when it is not inside a pass: the loop is left at
    its next test, no task is polled. *)
Lemma Thread_join_driver_idle cur fuel (s : State) :
  _shouldContinue s = false ->
  pending s = [] ->
  exists r s',
    Thread_join_driver clock cur fuel s = (r, s') /\
    childException s' = childException s /\
    _eventList s' = _eventList s /\
    heap s' = heap s /\
    (cur <> DriverThread -> _thread s <> None -> r = Ok tt).
Proof.
  intros H Hp; unfold Thread_join_driver, bind at 1, gets.
  assert (Hw : forall st : State,
             _shouldContinue st = false ->
             while_shouldContinue clock fuel st = (Ok tt, st)).
  { intros st Hst; destruct fuel; simpl; rewrite Hst; reflexivity. }
  destruct (_thread s) as [th|] eqn:Ht.
  - destruct cur.
    + destruct (t_alive th).
      * unfold bind, gets, modify, _execute_rest; rewrite Hp; simpl.
        unfold bind; rewrite Hw by exact H; simpl.
        eexists; eexists; split; [reflexivity|]; simpl; auto.
      * eexists; eexists; split; [reflexivity|]; auto.
    + eexists; eexists; split; [reflexivity|].
      repeat split; auto; congruence.
    + destruct (t_alive th).
      * unfold bind, gets, modify, _execute_rest; rewrite Hp; simpl.
        unfold bind; rewrite Hw by exact H; simpl.
        eexists; eexists; split; [reflexivity|]; simpl; auto.
      * eexists; eexists; split; [reflexivity|]; auto.
  - eexists; eexists; split; [reflexivity|].
    repeat split; auto; congruence.
Qed.

Lemma for_each_unchanged {A} (l : list A) (body : A -> M unit) (s : State) :
  Forall (fun x => body x s = (Ok tt, s)) l ->
  for_each l body s = (Ok tt, s).
Proof.
  induction 1 as [|x l Hx _ IH]; simpl; [reflexivity|].
  unfold bind; rewrite Hx; exact IH.
Qed.

(** The polls of a pass change neither the captured failure nor the
    continue-flag. *)
Definition same_child_flag (s s' : State) : Prop :=
  childException s' = childException s /\
  _shouldContinue s' = _shouldContinue s.

Lemma same_child_flag_polls cur l s :
  same_child_flag s (snd (for_each l (callIfShouldCall clock cur) s)).
Proof.
  assert (Htr : forall s1 s2 s3 : State,
             same_child_flag s1 s2 -> same_child_flag s2 s3 ->
             same_child_flag s1 s3).
  { unfold same_child_flag; intros s1 s2 s3 [H1 H2] [H3 H4];
      split; congruence. }
  apply (preserves_for_each same_child_flag (fun _ => conj eq_refl eq_refl)
           Htr).
  intros ev.
  apply (preserves_callIfShouldCall same_child_flag
           (fun _ => conj eq_refl eq_refl) Htr);
    intros; split; reflexivity.
Qed.

(** What is left of the driver's run when it is joined. *)
Definition driver_finishes (fuel : nat) (th : Thread) : M unit :=
  bind (gets pending)
    (fun rest =>
       bind (modify (set_pending []))
         (fun _ =>
            bind (modify (set_running true))
              (fun _ =>
                 bind
                   (fun s =>
                      match _execute_rest clock fuel rest s with
                      | (Ok _, s') => (Ok tt, s')
                      | (Exc _, s') => (Ok tt, s')
                      | (NoResult, s') => (NoResult, s')
                      end)
                   (fun _ =>
                      modify
                        (set_thread
                           (Some (mkThread (t_daemon th) false))))))).

Lemma driver_finishes_child fuel th (s : State) :
  _shouldContinue s = false ->
  childException (snd (driver_finishes fuel th s)) = childException s \/
  exists x s2,
    for_each (pending s) (callIfShouldCall clock DriverThread)
      (set_running true (set_pending [] s)) = (Exc x, s2) /\
    is_Exception x = true /\
    childException (snd (driver_finishes fuel th s)) = Some x.
Proof.
  intros Hc.
  assert (Hw : forall st : State,
             _shouldContinue st = false ->
             while_shouldContinue clock fuel st = (Ok tt, st)).
  { intros st Hst; destruct fuel; simpl; rewrite Hst; reflexivity. }
  unfold driver_finishes, bind, gets, modify, _execute_rest.
  pose proof (same_child_flag_polls DriverThread (pending s)
                (set_running true (set_pending [] s))) as [Hk1 Hk2].
  destruct (for_each (pending s) (callIfShouldCall clock DriverThread)
              (set_running true (set_pending [] s)))
    as [[[]|x|] s2]; simpl in Hk1, Hk2.
  - unfold bind; rewrite Hw by (rewrite Hk2; exact Hc); simpl.
    left; exact Hk1.
  - destruct (is_Exception x) eqn:Hx; simpl.
    + right; exists x, s2; auto.
    + left; exact Hk1.
  - left; exact Hk1.
Qed.

(** [Thread_join_driver] by cases. *)
Lemma Thread_join_driver_eq cur fuel (s : State) :
  Thread_join_driver clock cur fuel s =
  match _thread s with
  | None => (NoResult, s)
  | Some th =>
      match cur with
      | DriverThread => (Exc RuntimeError, s)
      | _ => if t_alive th then driver_finishes fuel th s else (Ok tt, s)
      end
  end.
Proof.
  unfold Thread_join_driver, bind at 1, gets.
  destruct (_thread s) as [th|]; [|reflexivity].
  destruct cur; try reflexivity; destruct (t_alive th); reflexivity.
Qed.

(** Nothing the driver raises reaches the thread that joins it: the
    join raises only when a thread joins itself. *)
Lemma Thread_join_driver_exc cur fuel (s s' : State) x :
  Thread_join_driver clock cur fuel s = (Exc x, s') ->
  x = RuntimeError /\ cur = DriverThread.
Proof.
  rewrite Thread_join_driver_eq.
  assert (Hf : forall th, fst (driver_finishes fuel th s) <> Exc x).
  { intros th; unfold driver_finishes, bind, gets, modify.
    destruct (_execute_rest clock fuel (pending s)
                (set_running true (set_pending [] s)))
      as [[[]|y|] s1]; discriminate. }
  destruct (_thread s) as [th|]; [|discriminate].
  destruct cur.
  - destruct (t_alive th); [|discriminate].
    intros H; exfalso; apply (Hf th); rewrite H; reflexivity.
  - intros H; inversion H; auto.
  - destruct (t_alive th); [|discriminate].
    intros H; exfalso; apply (Hf th); rewrite H; reflexivity.
Qed.

(** What joining the driver does to the captured failure, once the
    continue-flag is cleared: nothing, unless a poll of the pass the
    driver is in raises an instance of [Exception], which is then
    stored. *)
Lemma Thread_join_driver_child cur fuel (s : State) :
  _shouldContinue s = false ->
  childException (snd (Thread_join_driver clock cur fuel s)) =
    childException s \/
  exists x s2,
    for_each (pending s) (callIfShouldCall clock DriverThread)
      (set_running true (set_pending [] s)) = (Exc x, s2) /\
    is_Exception x = true /\
    childException (snd (Thread_join_driver clock cur fuel s)) = Some x.
Proof.
  intros Hc.
  rewrite Thread_join_driver_eq.
  destruct (_thread s) as [th|]; [|left; reflexivity].
  destruct cur; [|left; reflexivity|];
    (destruct (t_alive th);
     [apply (driver_finishes_child fuel th s Hc) | left; reflexivity]).
Qed.

(** The state in which [stop] starts its joins. *)
Definition stopping (s : State) : State :=
  set_shouldContinue false (set_stopInProgress true s).

Lemma stop_unfold cur fuel (s : State) :
  _stopInProgress s = false ->
  stop clock cur fuel s =
    bind (match _thread s with
          | Some _ => Thread_join_driver clock cur fuel
          | None => ret tt
          end)
      (fun _ =>
         bind (gets (fun s => length (_eventList s)))
           (fun n =>
              bind (for_each (seq 0 n) (Event_join clock cur))
                (fun _ => modify (set_stopInProgress false))))
      (stopping s).
Proof.
  intros Hf; unfold stop, bind at 1, gets; rewrite Hf; reflexivity.
Qed.

(** An exception that leaves [Event.join] is held by a worker that has
    just been joined. *)
Lemma Event_join_exc_inv cur ev (s s' : State) x :
  Event_join clock cur ev s = (Exc x, s') ->
  exists k t,
    heap s' !! k = Some t /\ exception t = Some x /\ isJoined t = true.
Proof.
  unfold Event_join, bind at 1, get_event.
  destruct (_eventList s !! ev) as [e|]; [|discriminate].
  unfold bind at 1.
  destruct (for_each (_threads e) (EventThread_join clock cur) s)
    as [[[]|y|] s1] eqn:E; try discriminate.
  intros H; inversion H; subst.
  destruct (for_each_exc_inv _ _ _ _ _ E) as (l1 & k & l2 & s0 & _ & _ & Hk).
  apply EventThread_join_inv in Hk as [Hk|(t & Ht & Hj & Hr & _)];
    [discriminate|].
  exists k, t; split; [exact Ht|]; split; [|exact Hj].
  destruct (exception t); simpl in Hr; [congruence|discriminate].
Qed.

(** Where an exception that leaves [stop] comes from. *)
Lemma stop_exc_origin cur fuel (s s' : State) x :
  stop clock cur fuel s = (Exc x, s') ->
  (x = RuntimeError /\ cur = DriverThread) \/
  exists k t,
    heap s' !! k = Some t /\ exception t = Some x /\ isJoined t = true.
Proof.
  destruct (_stopInProgress s) eqn:Hf.
  { rewrite stop_when_in_progress by exact Hf; discriminate. }
  rewrite (stop_unfold cur fuel s Hf); unfold bind at 1.
  destruct ((match _thread s with
             | Some _ => Thread_join_driver clock cur fuel
             | None => ret tt
             end) (stopping s)) as [[[]|y|] s1] eqn:E1.
  - unfold bind at 1, gets.
    unfold bind at 1.
    destruct (for_each (seq 0 (length (_eventList s1)))
                (Event_join clock cur) s1) as [[[]|y|] s2] eqn:E2;
      try discriminate.
    intros H; inversion H; subst; right.
    destruct (for_each_exc_inv _ _ _ _ _ E2)
      as (l1 & k & l2 & s0 & _ & _ & Hk).
    eapply Event_join_exc_inv; exact Hk.
  - intros H; inversion H; subst; left.
    destruct (_thread s); [|discriminate].
    eapply Thread_join_driver_exc; exact E1.
  - discriminate.
Qed.

(** C1 (as amended): [stop] never reads or assigns [childException]: it
    does not re-raise the captured child failure, and its outcome is the
    same whatever the field holds.  An exception that leaves [stop] is
    the failure held by a worker that [stop] has joined, or the
    [RuntimeError] of a driver thread that joins itself.  While [stop]
    joins the driver, the driver finishes the pass it is in, and a failure
    it captures there is stored in [childException]: after [stop] the
    field holds what it held before, or an instance of [Exception] raised
    by a poll of that pass; when the driver is not inside a pass it holds
    what it held before.  [stop] has no handler around its joins, so a
    failure captured by a tracked worker is raised again by that worker's
    [join] and propagates out of [stop] to its caller: when the driver is
    not inside a pass and the first tracked worker that the drain meets is
    finished and holds a captured failure, [stop] ends with that
    failure. *)
Theorem C1_stop_and_worker_failure cur fuel (s : State) :
  (forall x,
     fst (stop clock cur fuel (set_childException x s)) =
     fst (stop clock cur fuel s)) /\
  (forall x s',
     stop clock cur fuel s = (Exc x, s') ->
     (x = RuntimeError /\ cur = DriverThread) \/
     exists k t,
       heap s' !! k = Some t /\ exception t = Some x /\ isJoined t = true) /\
  (childException (snd (stop clock cur fuel s)) = childException s \/
   exists x s2,
     for_each (pending s) (callIfShouldCall clock DriverThread)
       (set_running true (set_pending [] (stopping s))) = (Exc x, s2) /\
     is_Exception x = true /\
     childException (snd (stop clock cur fuel s)) = Some x) /\
  (pending s = [] ->
   childException (snd (stop clock cur fuel s)) = childException s) /\
  (forall th x s2,
     _stopInProgress s = false ->
     cur <> DriverThread ->
     _thread s = Some th ->
     t_alive th = true ->
     for_each (pending s) (callIfShouldCall clock DriverThread)
       (set_running true (set_pending [] (stopping s))) = (Exc x, s2) ->
     is_Exception x = true ->
     childException (snd (stop clock cur fuel s)) = Some x) /\
  (forall ev (e : Event) tid rest t x,
     _stopInProgress s = false ->
     cur <> DriverThread ->
     pending s = [] ->
     _eventList s !! ev = Some e ->
     (forall j (e' : Event),
        (j < ev)%nat -> _eventList s !! j = Some e' -> _threads e' = []) ->
     _threads e = tid :: rest ->
     heap s !! tid = Some t ->
     alive t = false ->
     exception t = Some x ->
     fst (stop clock cur fuel s) = Exc x).
Proof.
  split; [|split; [|split; [|split; [|split]]]].
  - intros x.
    apply (ignores_stop cur fuel (set_childException x s) s); reflexivity.
  - intros x s'; apply stop_exc_origin.
  - destruct (_stopInProgress s) eqn:Hf.
    + left; rewrite stop_when_in_progress by exact Hf; reflexivity.
    + rewrite (stop_unfold cur fuel s Hf).
      set (join_driver := match _thread s with
                          | Some _ => Thread_join_driver clock cur fuel
                          | None => ret tt
                          end).
      assert (Hdrv :
                childException (snd (join_driver (stopping s))) =
                  childException s \/
                exists x s2,
                  for_each (pending s) (callIfShouldCall clock DriverThread)
                    (set_running true (set_pending [] (stopping s))) =
                    (Exc x, s2) /\
                  is_Exception x = true /\
                  childException (snd (join_driver (stopping s))) = Some x).
      { subst join_driver; destruct (_thread s); [|left; reflexivity].
        apply (Thread_join_driver_child cur fuel (stopping s) eq_refl). }
      assert (Hrest : childException
                        (snd (bind join_driver
                                (fun _ =>
                                   bind (gets (fun s => length (_eventList s)))
                                     (fun n =>
                                        bind (for_each (seq 0 n)
                                                (Event_join clock cur))
                                          (fun _ =>
                                             modify
                                               (set_stopInProgress false))))
                                (stopping s))) =
                      childException (snd (join_driver (stopping s)))).
      { unfold bind at 1.
        destruct (join_driver (stopping s)) as [[[]|y|] s1];
          try reflexivity.
        unfold bind at 1, gets.
        pose proof (same_child_Event_joins cur
                      (seq 0 (length (_eventList s1))) s1) as Hj.
        unfold bind, modify.
        destruct (for_each (seq 0 (length (_eventList s1)))
                    (Event_join clock cur) s1) as [[[]|y|] s2];
          unfold same_child in Hj; simpl in Hj |- *; exact Hj. }
      rewrite Hrest.
      destruct Hdrv as [Hd|(x & s2 & Hp & Hx & Hd)].
      * left; exact Hd.
      * right; exists x, s2; auto.
  - intros Hp.
    destruct (_stopInProgress s) eqn:Hf.
    + rewrite stop_when_in_progress by exact Hf; reflexivity.
    + rewrite (stop_unfold cur fuel s Hf); unfold bind at 1.
      assert (Hdrv : exists r s1,
                (match _thread s with
                 | Some _ => Thread_join_driver clock cur fuel
                 | None => ret tt
                 end) (stopping s) = (r, s1) /\
                childException s1 = childException s).
      { destruct (_thread s).
        - destruct (Thread_join_driver_idle cur fuel (stopping s) eq_refl Hp)
            as (r & s1 & E & Hc & _); eauto.
        - eexists; eexists; split; reflexivity. }
      destruct Hdrv as (r & s1 & E1 & Hc1); rewrite E1.
      destruct r as [[]|y|]; simpl; auto.
      unfold bind at 1, gets.
      pose proof (same_child_Event_joins cur
                    (seq 0 (length (_eventList s1))) s1) as Hj.
      unfold bind, modify.
      destruct (for_each (seq 0 (length (_eventList s1)))
                  (Event_join clock cur) s1) as [[[]|y|] s2];
        unfold same_child in Hj; simpl in Hj |- *; congruence.
  - intros th x s2 Hf Hcur Ht Ha Hpoll Hx.
    rewrite (stop_unfold cur fuel s Hf); unfold bind at 1; rewrite Ht.
    assert (E1 : Thread_join_driver clock cur fuel (stopping s) =
                 (Ok tt,
                  set_thread (Some (mkThread (t_daemon th) false))
                    (set_running false (set_childException (Some x) s2)))).
    { unfold Thread_join_driver, bind at 1, gets.
      change (_thread (stopping s)) with (_thread s); rewrite Ht.
      destruct cur; try contradiction; rewrite Ha;
        unfold bind, gets, modify, _execute_rest;
        change (pending (stopping s)) with (pending s);
        rewrite Hpoll, Hx; reflexivity. }
    rewrite E1.
    unfold bind at 1, gets.
    set (s1 := set_thread _ _).
    pose proof (same_child_Event_joins cur
                  (seq 0 (length (_eventList s1))) s1) as Hj.
    unfold bind, modify.
    destruct (for_each (seq 0 (length (_eventList s1)))
                (Event_join clock cur) s1) as [[[]|y|] s3];
      unfold same_child in Hj; simpl in Hj |- *; rewrite Hj; reflexivity.
  - intros ev e tid rest t x Hf Hcur Hp He Hbefore Hth Ht Ha Hx.
    rewrite (stop_unfold cur fuel s Hf); unfold bind at 1.
    assert (Hdrv : exists s1,
              (match _thread s with
               | Some _ => Thread_join_driver clock cur fuel
               | None => ret tt
               end) (stopping s) = (Ok tt, s1) /\
              _eventList s1 = _eventList s /\ heap s1 = heap s).
    { destruct (_thread s) as [th|] eqn:Eth.
      - destruct (Thread_join_driver_idle cur fuel (stopping s) eq_refl Hp)
          as (r & s1 & E & _ & He1 & Hh1 & Hr).
        rewrite (Hr Hcur) in E
          by (change (_thread (stopping s)) with (_thread s); congruence).
        eauto.
      - eexists; split; [reflexivity|]; auto. }
    destruct Hdrv as (s1 & E1 & He1 & Hh1); rewrite E1.
    unfold bind at 1, gets.
    assert (Hlen : (ev < length (_eventList s1))%nat).
    { rewrite He1; eapply lookup_lt_Some; exact He. }
    assert (Hseq : seq 0 (length (_eventList s1)) =
                   seq 0 ev ++ ev :: seq (S ev) (length (_eventList s1) - S ev)).
    { replace (length (_eventList s1)) with (ev + S (length (_eventList s1) - S ev))%nat
        at 1 by lia.
      rewrite seq_app; reflexivity. }
    assert (Hpre : for_each (seq 0 ev) (Event_join clock cur) s1 = (Ok tt, s1)).
    { apply for_each_unchanged, Forall_forall; intros j Hj.
      apply elem_of_seq in Hj.
      assert (Hjl : (j < length (_eventList s1))%nat) by lia.
      destruct (lookup_lt_is_Some_2 _ _ Hjl) as [e' He'].
      apply (Event_join_nil cur j e' s1 He').
      apply (Hbefore j e'); [lia | rewrite <- He1; exact He']. }
    assert (Hev : Event_join clock cur ev s1 =
                  (Exc x, upd_thread tid (set_isJoined true)
                            (log (AJoin tid) s1))).
    { unfold Event_join.
      rewrite (bind_ok _ _ _ _ _
                 (get_event_some ev e s1 (eq_trans (f_equal (fun l => l !! ev) He1) He))).
      rewrite Hth; cbn [for_each].
      rewrite <- Hh1 in Ht.
      unfold bind; rewrite (EventThread_join_dead cur tid t s1 Ht Ha), Hx.
      reflexivity. }
    unfold bind at 1.
    rewrite Hseq, (for_each_raises _ _ _ _ _ _ _ _ Hpre Hev).
    reflexivity.
Qed.

End Properties.

(** * Concrete runs

    The user state is a counter of calls. *)

Module Run.

(** A callable that returns the number of earlier calls. *)
Definition count_ok : @Callable nat :=
  mkCallable (Some "count_ok"%string) (fun u => (Ok (Z.of_nat u), S u)).

(** A callable that raises an instance of [Exception]. *)
Definition boom : @Callable nat :=
  mkCallable (Some "boom"%string) (fun u => (Exc (UserError 7), S u)).

(** A callable that raises an exception that is no instance of
    [Exception]. *)
Definition base_boom : @Callable nat :=
  mkCallable (Some "base_boom"%string) (fun u => (Exc (BaseError 1), S u)).

(** A callback that adds one to the result. *)
Definition plus_one (v : val) (u : nat) : outcome val * nat := (Ok (v + 1), u).

(** A clock that stands at 100. *)
Definition clk (n : nat) : Z := 100.

(** The schedule in which no worker runs before it is joined. *)
Definition idle (n : nat) : list nat := [].

(** A manager with asynchronous dispatch and one failing task. *)
Definition async0 : @State nat :=
  snd (addEvent boom 1 None (EventManager___init__ true 0%nat idle)).

(** ... started from the main thread ... *)
Definition async1 : @State nat := snd (start MainThread async0).

(** ... after one pass of the driver, which spawns worker 0 ... *)
Definition async2 : @State nat := snd (pass clk async1).

(** ... and after that worker has run to its end. *)
Definition async3 : @State nat := snd (Thread_join clk 0 async2).

(** A manager with synchronous dispatch and one failing task. *)
Definition sync_boom : @State nat :=
  snd (addEvent boom 1 None (EventManager___init__ false 0%nat idle)).

(** A manager with synchronous dispatch and three tasks, the second of
    which fails. *)
Definition sync_three : @State nat :=
  snd (addEvent count_ok 1 None
         (snd (addEvent boom 1 None
                 (snd (addEvent count_ok 1 None
                         (EventManager___init__ false 0%nat idle)))))).

(** A manager with synchronous dispatch and one task that raises an
    exception that is no instance of [Exception]. *)
Definition sync_base : @State nat :=
  snd (addEvent base_boom 1 None (EventManager___init__ false 0%nat idle)).

(** A manager with synchronous dispatch, a counting task and a callback. *)
Definition sync_count : @State nat :=
  snd (addEvent count_ok 5 (Some plus_one)
         (EventManager___init__ false 0%nat idle)).

(** The manager [sync_boom], started, whose driver has taken up its
    first pass and is about to poll task 0. *)
Definition sync_boom_in_pass : @State nat :=
  snd (driver_polls clk 0 (snd (start MainThread sync_boom))).

(** The schedule in which every worker runs as soon as it is started. *)
Definition eager (n : nat) : list nat := [n].

(** A manager with asynchronous dispatch and one failing task, started,
    whose workers run as soon as they are started. *)
Definition async_eager : @State nat :=
  snd (start MainThread
         (snd (addEvent boom 1 None
                 (EventManager___init__ true 0%nat eager)))).

(** A manager with asynchronous dispatch whose only worker has finished
    without failure. *)
Definition async_ok : @State nat :=
  snd (Thread_join clk 0
         (snd (pass clk
                 (snd (start MainThread
                         (snd (addEvent count_ok 1 None
                                 (EventManager___init__ true 0%nat
                                    idle)))))))).

(** A manager with asynchronous dispatch and one task whose work raises an
    exception that is no instance of [Exception], after one pass of the
    driver. *)
Definition async_base2 : @State nat :=
  snd (pass clk
         (snd (start MainThread
                 (snd (addEvent base_boom 1 None
                         (EventManager___init__ true 0%nat idle)))))).

(** A callable without a [__name__], as a [functools.partial] object
    is. *)
Definition anon : @Callable nat :=
  mkCallable None (fun u => (Ok 0, S u)).

(** A manager with asynchronous dispatch and one task whose callable has
    no [__name__]. *)
Definition async_anon : @State nat :=
  snd (addEvent anon 1 None (EventManager___init__ true 0%nat idle)).

(** The state a failed [stop] leaves behind. *)
Definition after_failed_stop : @State nat :=
  snd (stop clk MainThread 1 async2).

Example async2_worker_alive :
  heap async2 = [mkEventThread 0 None true false true] /\
  threads_of async2 0 = Some [0%nat].
Proof. split; reflexivity. Qed.

Example async3_worker_failed :
  heap async3 = [mkEventThread 0 (Some (UserError 7)) true false false] /\
  threads_of async3 0 = Some [0%nat].
Proof. split; reflexivity. Qed.

Example sync_boom_in_pass_pending :
  pending sync_boom_in_pass = [0%nat] /\
  childException sync_boom_in_pass = None /\
  _running sync_boom_in_pass = true.
Proof. repeat split; reflexivity. Qed.

(** C1, the claim as stated fails: with a worker whose work raises still
    tracked, [stop] called from the main thread ends with the worker's
    failure, and [childException] is not populated.  A [stop] after that
    one returns, and so does a [stop] that joins a worker whose work ends
    with an exception that is no instance of [Exception]: in both cases
    the work of a task has failed and [childException] is not
    populated. *)
Lemma C1_counterexample :
  (fst (stop clk MainThread 1 async2) = Exc (UserError 7) /\
   childException (snd (stop clk MainThread 1 async2)) = None) /\
  (fst (stop clk MainThread 1 after_failed_stop) = Ok tt /\
   childException (snd (stop clk MainThread 1 after_failed_stop)) = None) /\
  (fst (stop clk MainThread 1 async_base2) = Ok tt /\
   heap (snd (stop clk MainThread 1 async_base2)) =
     [mkEventThread 0 None true true false] /\
   user (snd (stop clk MainThread 1 async_base2)) = 1%nat /\
   childException (snd (stop clk MainThread 1 async_base2)) = None).
Proof. repeat split; vm_compute; reflexivity. Qed.

Lemma C1_witness :
  fst (stop clk MainThread 1 (set_childException (Some (UserError 3)) async0)) =
    fst (stop clk MainThread 1 async0) /\
  childException (snd (stop clk MainThread 1 async3)) =
    childException async3 /\
  childException (snd (stop clk MainThread 1 sync_boom_in_pass)) =
    Some (UserError 7) /\
  fst (stop clk MainThread 1 async3) = Exc (UserError 7) /\
  ((UserError 7 = RuntimeError /\ MainThread = DriverThread) \/
   exists k t,
     heap after_failed_stop !! k = Some t /\
     exception t = Some (UserError 7) /\ isJoined t = true).
Proof.
  split; [|split; [|split; [|split]]];
    [| | | |
     apply (proj1 (proj2
              (C1_stop_and_worker_failure clk MainThread 1 async2)));
     vm_compute; reflexivity].
  - exact (proj1 (C1_stop_and_worker_failure clk MainThread 1 async0)
             (Some (UserError 3))).
  - apply (proj1 (proj2 (proj2 (proj2
             (C1_stop_and_worker_failure clk MainThread 1 async3))))).
    reflexivity.
  - eapply (proj1 (proj2 (proj2 (proj2 (proj2
              (C1_stop_and_worker_failure clk MainThread 1
                 sync_boom_in_pass)))))
              (mkThread false true) (UserError 7)).
    + reflexivity.
    + discriminate.
    + reflexivity.
    + reflexivity.
    + vm_compute; reflexivity.
    + reflexivity.
  - apply (proj2 (proj2 (proj2 (proj2 (proj2
             (C1_stop_and_worker_failure clk MainThread 1 async3)))))
             0%nat (mkEvent boom 1 None true 100 [0%nat]) 0%nat []
             (mkEventThread 0 (Some (UserError 7)) true false false)
             (UserError 7)).
    + reflexivity.
    + discriminate.
    + reflexivity.
    + reflexivity.
    + intros j e' Hj; lia.
    + reflexivity.
    + reflexivity.
    + reflexivity.
    + reflexivity.
Defined.

(** C2, the claim as stated fails: a poll that raises an exception that
    is no instance of [Exception] leaves [_execute] with that exception;
    nothing is stored in [childException] and the running flag is still
    true. *)
Lemma C2_counterexample :
  fst (_execute clk 1 sync_base) = Exc (BaseError 1) /\
  childException (snd (_execute clk 1 sync_base)) = None /\
  _running (snd (_execute clk 1 sync_base)) = true.
Proof. repeat split; vm_compute; reflexivity. Qed.

Lemma C2_witness :
  exists s1 s2,
    for_each [0%nat] (callIfShouldCall clk DriverThread)
      (set_running true sync_three) = (Ok tt, s1) /\
    callIfShouldCall clk DriverThread 1 s1 = (Exc (UserError 7), s2) /\
    _execute clk 1 sync_three =
      (Ok tt, set_running false (set_childException (Some (UserError 7)) s2)) /\
    childException (snd (_execute clk 1 sync_three)) = Some (UserError 7) /\
    _running (snd (_execute clk 1 sync_three)) = false /\
    user (snd (_execute clk 1 sync_three)) = 2%nat.
Proof.
  pose (s1 := snd (for_each [0%nat] (callIfShouldCall clk DriverThread)
                     (set_running true sync_three))).
  pose (s2 := snd (callIfShouldCall clk DriverThread 1 s1)).
  assert (E1 : for_each [0%nat] (callIfShouldCall clk DriverThread)
                 (set_running true sync_three) = (Ok tt, s1))
    by (vm_compute; reflexivity).
  assert (E2 : callIfShouldCall clk DriverThread 1 s1 =
               (Exc (UserError 7), s2))
    by (vm_compute; reflexivity).
  exists s1, s2; split; [exact E1|]; split; [exact E2|].
  pose proof (C2_driver_captures_failure clk 0 0 sync_three
                (set_running true sync_three) s1 s2 [0%nat] 1%nat [2%nat]
                (UserError 7) eq_refl eq_refl eq_refl E1 E2) as H.
  cbn [is_Exception] in H; destruct H as (H1 & H2 & H3 & _).
  split; [exact H1|].
  change (0 + 1)%nat with 1%nat in H1; rewrite H1.
  split; [exact H2|]; split; [exact H3|].
  vm_compute; reflexivity.
Defined.

(** C3, the claim as stated fails: the pass ends with the failure of
    worker 0, which has been joined and is still tracked. *)
Lemma C3_counterexample :
  fst (_joinDeadThreads clk DriverThread 0 async3) = Exc (UserError 7) /\
  heap_isJoined (heap (snd (_joinDeadThreads clk DriverThread 0 async3))) 0 =
    true /\
  threads_of (snd (_joinDeadThreads clk DriverThread 0 async3)) 0 =
    Some [0%nat].
Proof. repeat split; reflexivity. Qed.

Lemma C3_witness :
  exists s',
    _joinDeadThreads clk DriverThread 0 async3 = (Exc (UserError 7), s') /\
    trace s' = trace async3 ++ [AJoin 0] /\
    heap s' = mark_joined [0%nat] (heap async3) /\
    threads_of s' 0 = Some [0%nat].
Proof.
  apply (C3_reap_finished_workers clk DriverThread async3 0
           (mkEvent boom 1 None true 100 [0%nat])).
  - reflexivity.
  - repeat constructor.
Defined.

(** C4, the claim as stated fails: [Event.join] ends with the failure of
    worker 0 and the tracked collection is not cleared. *)
Lemma C4_counterexample :
  fst (Event_join clk MainThread 0 async3) = Exc (UserError 7) /\
  threads_of (snd (Event_join clk MainThread 0 async3)) 0 = Some [0%nat].
Proof. split; reflexivity. Qed.

Lemma C4_witness :
  Event_join clk MainThread 0 async0 = (Ok tt, async0) /\
  (threads_of (snd (Event_join clk MainThread 0 async_ok)) 0 = Some [] /\
   Forall (joined_by MainThread
             (heap (snd (Event_join clk MainThread 0 async_ok))))
     [0%nat]) /\
  threads_of (snd (Event_join clk MainThread 0 async2)) 0 = Some [0%nat] /\
  exists k t,
    k ∈ [0%nat] /\
    heap (snd (Event_join clk MainThread 0 async2)) !! k = Some t /\
    exception t = Some (UserError 7) /\ isJoined t = true.
Proof.
  split; [|split].
  - apply (proj1 (C4_join_all clk MainThread async0 0
                    (mkEvent boom 1 None true 0 []) eq_refl)).
    reflexivity.
  - apply (proj1 (proj2 (C4_join_all clk MainThread async_ok 0
                           (mkEvent count_ok 1 None true 100 [0%nat])
                           eq_refl))).
    vm_compute; reflexivity.
  - apply (proj2 (proj2 (proj2 (C4_join_all clk MainThread async2 0
                           (mkEvent boom 1 None true 0 [0%nat]) eq_refl)))
             (UserError 7)).
    vm_compute; reflexivity.
Defined.

(** C5, the claim as stated fails: a poll at exactly
    [lastInvocation + interval] does not judge the task due. *)
Lemma C5_counterexample :
  ~ (forall last interval now : Z,
       due last interval now = true <-> now >= last + interval).
Proof.
  intros H; destruct (H 0 5 5) as [_ H2].
  assert (Hf : due 0 5 5 = true) by (apply H2; lia).
  discriminate Hf.
Qed.

Lemma C5_witness :
  exists b,
    _shouldCall clk 0 sync_count =
      (Ok b, set_reads 1 sync_count) /\
    (b = true <-> 0 + 5 < 100) /\
    (100 = 0 + 5 -> b = false).
Proof.
  apply (C5_shouldCall_strict clk sync_count 0
           (mkEvent count_ok 5 (Some plus_one) false 0 [])).
  reflexivity.
Defined.



Lemma C7_witness :
  exists s',
    _call clk DriverThread 0 false sync_count = (Ok (RVal 1), s') /\
    trace s' = [ASetLastCallTime 0 100; ACallable 0; ACallback 0] /\
    lastCallTime_of s' 0 = Some 100 /\
    user s' = 1%nat.
Proof.
  apply (C7_sync_dispatch clk DriverThread sync_count 0
           (mkEvent count_ok 5 (Some plus_one) false 0 []) 0 1%nat
           eq_refl eq_refl eq_refl 1 1%nat).
  reflexivity.
Defined.

Lemma C8_witness :
  _stopInProgress after_failed_stop = true /\
  stop clk MainThread 1 after_failed_stop = (Ok tt, after_failed_stop).
Proof.
  split; [vm_compute; reflexivity|].
  apply (C8_stop_in_progress_noop clk MainThread 1 after_failed_stop).
  vm_compute; reflexivity.
Defined.

(** C9, the claim as stated fails: the driver thread started from the
    main thread is not a daemon. *)
Lemma C9_counterexample :
  _thread (snd (start MainThread async0)) = Some (mkThread false true).
Proof. reflexivity. Qed.

Lemma C9_witness :
  (0%nat = length (heap async_eager) /\
   exists t,
     heap (snd (_call clk DriverThread 0 false async_eager)) !! 0%nat =
       Some t /\ daemon t = true) /\
  fst (_call clk DriverThread 0 false async_eager) <> Exc (UserError 7) /\
  exists s' t,
    _call clk DriverThread 0 false async1 = (Ok (RThread 0), s') /\
    heap s' !! 0%nat = Some t /\ daemon t = true /\ alive t = true.
Proof.
  split; [|split].
  - apply (proj1 (C9_daemon_flags clk DriverThread async_eager) 0%nat).
    vm_compute; reflexivity.
  - apply (proj1 (proj2 (C9_daemon_flags clk DriverThread async_eager))
             0%nat (mkEvent boom 1 None true 0 [])).
    + reflexivity.
    + reflexivity.
    + discriminate.
  - apply (proj1 (proj2 (proj2 (C9_daemon_flags clk DriverThread async1)))
             0%nat (mkEvent boom 1 None true 0 [])).
    + reflexivity.
    + reflexivity.
    + discriminate.
    + reflexivity.
Defined.

Lemma C10_witness :
  _stopInProgress after_failed_stop = true /\
  stop clk MainThread 3
    (run_steps clk [DoStart MainThread; DoAddEvent count_ok 0 None]
       after_failed_stop) =
    (Ok tt,
     run_steps clk [DoStart MainThread; DoAddEvent count_ok 0 None]
       after_failed_stop).
Proof.
  assert (H : stop clk MainThread 1 async2 =
              (Exc (UserError 7), after_failed_stop))
    by (vm_compute; reflexivity).
  destruct (C10_failed_stop_is_final clk MainThread 1 async2 _ _ H)
    as [H1 H2].
  split; [exact H1|].
  apply (proj2 (H2 [DoStart MainThread; DoAddEvent count_ok 0 None])).
Defined.

End Run.
(** * Further properties of the three classes *)

Section Further.

Context {U : Type}.
Variable clock : nat -> Z.

Local Abbreviation State := (@State U).
Local Abbreviation Event := (@Event U).
Local Abbreviation M := (@M U).

(** ** EventThread *)

(** The body of a worker, [Event._call] with [iAmAThread=True], touches no
    thread object. *)
Lemma call_inline_heap cur ev (s : State) :
  heap (snd (_call clock cur ev true s)) = heap s.
Proof.
  apply (preserves_call_true clock (fun s s' : State => heap s' = heap s));
    try reflexivity.
  intros s1 s2 s3 H1 H2; congruence.
Qed.

(** With [iAmAThread] true, [_call] is its [else] branch. *)
Lemma call_true_eq cur ev (s : State) :
  _call clock cur ev true s =
  bind (get_event ev) (_call_inline clock ev) s.
Proof.
  unfold _call, bind, get_event.
  destruct (_eventList s !! ev) as [e|]; [|reflexivity].
  rewrite andb_false_r; reflexivity.
Qed.

(** [_wrapped_run] in terms of the work it wraps. *)
Lemma try_seq_ret {A} (m : M A) (h : exn -> M unit) (s : State) :
  try_except (bind m (fun _ => ret tt)) h s =
  match m s with
  | (Ok _, s') => (Ok tt, s')
  | (Exc x, s') => if is_Exception x then h x s' else (Exc x, s')
  | (NoResult, s') => (NoResult, s')
  end.
Proof.
  unfold try_except, bind, ret.
  destruct (m s) as [[a|x|] s']; reflexivity.
Qed.

Lemma wrapped_run_eq tid t (s : State) :
  heap s !! tid = Some t ->
  _wrapped_run clock tid s =
  match _call clock (WorkerThread tid) (target t) true s with
  | (Ok _, s') => (Ok tt, s')
  | (Exc x, s') =>
      if is_Exception x
      then (Ok tt, upd_thread tid (set_exception (Some x)) s')
      else (Exc x, s')
  | (NoResult, s') => (NoResult, s')
  end.
Proof.
  intros Ht.
  rewrite call_true_eq.
  unfold _wrapped_run.
  rewrite (bind_ok _ _ _ _ _ (get_thread_some tid t s Ht)).
  apply try_seq_ret.
Qed.

(** [_wrapped_run] lets no instance of [Exception] out of the worker:
    when the work raises one, it is stored in the thread's [exception]
    field and [_wrapped_run] returns.  An exception that is no instance of
    [Exception] leaves [_wrapped_run] and the field stays as it was. *)
Theorem wrapped_run_captures tid t (s : State) :
  heap s !! tid = Some t ->
  (forall x, fst (_wrapped_run clock tid s) = Exc x ->
             is_Exception x = false) /\
  (forall x s',
     _call clock (WorkerThread tid) (target t) true s = (Exc x, s') ->
     if is_Exception x then
       _wrapped_run clock tid s =
         (Ok tt, upd_thread tid (set_exception (Some x)) s') /\
       exception <$> heap (snd (_wrapped_run clock tid s)) !! tid =
         Some (Some x)
     else
       _wrapped_run clock tid s = (Exc x, s') /\
       exception <$> heap s' !! tid = Some (exception t)).
Proof.
  intros Ht.
  pose proof (call_inline_heap (WorkerThread tid) (target t) s) as Hh.
  rewrite (wrapped_run_eq tid t s Ht).
  destruct (_call clock (WorkerThread tid) (target t) true s)
    as [[r|y|] s1]; simpl in Hh.
  - split; [intros x; discriminate|intros x s' H; discriminate].
  - split.
    + intros x; destruct (is_Exception y) eqn:Hy; [discriminate|].
      intros H; inversion H; subst; exact Hy.
    + intros x s' H; inversion H; subst.
      destruct (is_Exception x).
      * split; [reflexivity|].
        simpl; rewrite list_lookup_alter_eq, Hh, Ht; reflexivity.
      * split; [reflexivity|].
        rewrite Hh, Ht; reflexivity.
  - split; [intros x; discriminate|intros x s' H; discriminate].
Qed.

(** What a join finds in a worker that has run: the exception if the
    work raised an instance of [Exception], nothing otherwise. *)
Definition captured {A} (r : outcome A) : option exn :=
  match r with
  | Exc x => if is_Exception x then Some x else None
  | _ => None
  end.

(** The state a join of a running worker from another thread leaves. *)
Definition joined_state (tid : nat) (r : outcome retval) (s1 : State) :
  State :=
  upd_thread tid (set_isJoined true)
    (upd_thread tid (set_alive false)
       (match captured r with
        | Some x => upd_thread tid (set_exception (Some x)) s1
        | None => s1
        end)).

Lemma join_live_worker_eq cur tid t (s : State) :
  heap s !! tid = Some t ->
  alive t = true ->
  exception t = None ->
  is_worker cur tid = false ->
  EventThread_join clock cur tid s =
  match _call clock (WorkerThread tid) (target t) true (log (AJoin tid) s)
  with
  | (NoResult, s1) => (NoResult, s1)
  | (r, s1) => (result_of (captured r), joined_state tid r s1)
  end.
Proof.
  intros Ht Ha Hx Hw.
  pose proof (call_inline_heap (WorkerThread tid) (target t)
                (log (AJoin tid) s)) as Hh.
  unfold EventThread_join, bind at 1, modify; rewrite Hw; cbn [negb].
  unfold bind at 1, Thread_join.
  rewrite (bind_ok _ _ _ _ _
             (get_thread_some tid t (log (AJoin tid) s) Ht)), Ha.
  unfold worker_runs.
  rewrite (wrapped_run_eq tid t (log (AJoin tid) s) Ht).
  unfold joined_state.
  destruct (_call clock (WorkerThread tid) (target t) true
              (log (AJoin tid) s)) as [[r|y|] s1]; simpl in Hh.
  - unfold bind, modify, get_thread, ret; simpl.
    rewrite !list_lookup_alter_eq, Hh, Ht; simpl; rewrite Hx.
    reflexivity.
  - destruct (is_Exception y) eqn:Hy; simpl; rewrite ?Hy.
    + unfold bind, modify, get_thread; simpl.
      rewrite !list_lookup_alter_eq, Hh, Ht; simpl.
      reflexivity.
    + unfold bind, modify, get_thread; simpl.
      rewrite !list_lookup_alter_eq, Hh, Ht; simpl; rewrite Hx.
      reflexivity.
  - reflexivity.
Qed.

Lemma joined_state_thread tid t r (s s1 : State) :
  heap s !! tid = Some t ->
  exception t = None ->
  heap s1 = heap s ->
  heap (joined_state tid r s1) !! tid =
    Some (mkEventThread (target t) (captured r) (daemon t) true false).
Proof.
  intros Ht Hx Hh; unfold joined_state.
  destruct (captured r); simpl;
    rewrite !list_lookup_alter_eq, Hh, Ht; simpl;
    unfold set_isJoined, set_alive; simpl; rewrite ?Hx; reflexivity.
Qed.

(** Joining a worker that is still running, from another thread, waits
    for its work.  When the work returns, [join] returns.  When the work
    raises an instance of [Exception], [join] raises it and the worker
    holds it.  When the work raises an exception that is no instance of
    [Exception], the worker thread ends with it, [join] returns and the
    worker holds nothing.  In all three cases the worker is left finished
    and marked as joined. *)
Theorem join_live_worker cur tid t (s : State) :
  heap s !! tid = Some t ->
  alive t = true ->
  exception t = None ->
  is_worker cur tid = false ->
  match _call clock (WorkerThread tid) (target t) true (log (AJoin tid) s)
  with
  | (NoResult, _) => fst (EventThread_join clock cur tid s) = NoResult
  | (r, _) =>
      exists s',
        EventThread_join clock cur tid s = (result_of (captured r), s') /\
        heap s' !! tid =
          Some (mkEventThread (target t) (captured r) (daemon t) true false)
  end.
Proof.
  intros Ht Ha Hx Hw.
  rewrite (join_live_worker_eq cur tid t s Ht Ha Hx Hw).
  pose proof (call_inline_heap (WorkerThread tid) (target t)
                (log (AJoin tid) s)) as Hh.
  destruct (_call clock (WorkerThread tid) (target t) true
              (log (AJoin tid) s)) as [[r|y|] s1]; simpl in Hh.
  - eexists; split; [reflexivity|].
    apply (joined_state_thread tid t _ s); assumption.
  - eexists; split; [reflexivity|].
    apply (joined_state_thread tid t _ s); assumption.
  - reflexivity.
Qed.

(** A worker that joins itself does not wait and does not run anything:
    it is only marked as joined, stays alive, and [join] raises the
    exception it holds, if any. *)
Theorem self_join_marks_joined tid t (s : State) :
  heap s !! tid = Some t ->
  exists s',
    EventThread_join clock (WorkerThread tid) tid s =
      (result_of (exception t), s') /\
    heap s' !! tid = Some (set_isJoined true t) /\
    alive (set_isJoined true t) = alive t /\
    user s' = user s /\ reads s' = reads s /\
    _eventList s' = _eventList s /\
    trace s' = trace s ++ [AJoin tid].
Proof.
  intros Ht; unfold EventThread_join, bind, modify, get_thread; simpl.
  rewrite Nat.eqb_refl; simpl.
  rewrite list_lookup_alter_eq, Ht; simpl.
  destruct (exception t); simpl;
    (eexists; split; [reflexivity|]; simpl;
     rewrite list_lookup_alter_eq, Ht; auto 10).
Qed.

(** A finished worker that holds an exception raises it on every join,
    not only on the first one. *)
Theorem join_failed_worker_raises_again cur cur' tid t x (s : State) :
  heap s !! tid = Some t ->
  alive t = false ->
  exception t = Some x ->
  fst (EventThread_join clock cur tid s) = Exc x /\
  fst (EventThread_join clock cur' tid
         (snd (EventThread_join clock cur tid s))) = Exc x.
Proof.
  intros Ht Ha Hx.
  rewrite (EventThread_join_dead clock cur tid t s Ht Ha), Hx; simpl.
  split; [reflexivity|].
  erewrite (EventThread_join_dead clock cur' tid (set_isJoined true t)).
  - simpl; rewrite Hx; reflexivity.
  - simpl; rewrite list_lookup_alter_eq, Ht; reflexivity.
  - exact Ha.
Qed.

(** ** Event: dispatch *)

(** When the callable of a synchronously dispatched task raises, [_call]
    raises the same exception; the timestamp has already been written and
    the callback is not invoked.  When the callback raises, [_call] raises
    the callback's exception. *)
Theorem sync_call_failure cur ev (e : Event) (s : State) :
  _eventList s !! ev = Some e ->
  _spawnThread e = false ->
  (forall x u1,
     _callable e (user s) = (Exc x, u1) ->
     exists s',
       _call clock cur ev false s = (Exc x, s') /\
       lastCallTime_of s' ev = Some (clock (reads s)) /\
       trace s' =
         trace s ++ [ASetLastCallTime ev (clock (reads s)); ACallable ev] /\
       user s' = u1) /\
  (forall v u1 cb x u2,
     _callable e (user s) = (Ok v, u1) ->
     _callback e = Some cb ->
     cb v u1 = (Exc x, u2) ->
     exists s',
       _call clock cur ev false s = (Exc x, s') /\
       lastCallTime_of s' ev = Some (clock (reads s)) /\
       trace s' =
         trace s ++ [ASetLastCallTime ev (clock (reads s));
                     ACallable ev; ACallback ev] /\
       user s' = u2).
Proof.
  intros He Hsync; split.
  - intros x u1 Hc; unfold _call.
    rewrite (bind_ok _ _ _ _ _ (get_event_some _ _ _ He)), Hsync; simpl.
    unfold _call_inline, bind, time_time, modify, call_user; simpl; rewrite Hc.
    eexists; split; [reflexivity|]; simpl.
    split; [|split; [rewrite <- !app_assoc|]; reflexivity].
    unfold lastCallTime_of; simpl.
    rewrite list_lookup_alter_eq, He; reflexivity.
  - intros v u1 cb x u2 Hc Hcb Hr; unfold _call.
    rewrite (bind_ok _ _ _ _ _ (get_event_some _ _ _ He)), Hsync; simpl.
    unfold _call_inline, bind, time_time, modify, call_user; simpl.
    rewrite Hc, Hcb; simpl; rewrite Hr.
    eexists; split; [reflexivity|]; simpl.
    split; [|split; [rewrite <- !app_assoc|]; reflexivity].
    unfold lastCallTime_of; simpl.
    rewrite list_lookup_alter_eq, He; reflexivity.
Qed.

(** The spawn branch of [_call] when the callable has a [__name__] and
    no worker runs while the new thread is started. *)
Lemma async_call_spawns cur ev (e : Event) (s : State) :
  _eventList s !! ev = Some e ->
  _spawnThread e = true ->
  __name__ (_callable e) <> None ->
  schedule s (length (heap s)) = [] ->
  _call clock cur ev false s =
    (Ok (RThread (length (heap s))),
     upd_event ev
       (fun e => set_threads (_threads e ++ [length (heap s)]) e)
       (upd_thread (length (heap s)) (set_alive true)
          (log (ASpawn ev (length (heap s)))
             (set_heap
                (heap s ++ [mkEventThread ev None true false false]) s)))).
Proof.
  intros He Hs Hn Hsch; unfold _call.
  rewrite (bind_ok _ _ _ _ _ (get_event_some _ _ _ He)), Hs; simpl.
  destruct (__name__ (_callable e)) as [nm|]; [|contradiction].
  unfold bind, EventThread___init__, modify, Thread_start, bind, modify,
    gets; simpl.
  rewrite Hsch; reflexivity.
Qed.

(** The spawn branch of [_call] when the callable has no [__name__]. *)
Lemma async_call_nameless cur ev (e : Event) (s : State) :
  _eventList s !! ev = Some e ->
  _spawnThread e = true ->
  __name__ (_callable e) = None ->
  _call clock cur ev false s = (Exc AttributeError, s).
Proof.
  intros He Hs Hn; unfold _call.
  rewrite (bind_ok _ _ _ _ _ (get_event_some _ _ _ He)), Hs, Hn.
  reflexivity.
Qed.

Lemma lookup_keeps {B} (g : Event -> B) (s s' : State) ev (e : Event) :
  g <$> _eventList s' = g <$> _eventList s ->
  _eventList s !! ev = Some e ->
  exists e', _eventList s' !! ev = Some e' /\ g e' = g e.
Proof.
  intros Ht He.
  assert (H : (g <$> _eventList s') !! ev = Some (g e)).
  { rewrite Ht, list_lookup_fmap, He; reflexivity. }
  rewrite list_lookup_fmap in H.
  destruct (_eventList s' !! ev) as [e'|]; [|discriminate].
  exists e'; split; [reflexivity|]; simpl in H; congruence.
Qed.

(** What a running worker leaves alone: the tracked collections and the
    number of thread objects. *)
Definition same_tracking (s s' : State) : Prop :=
  _threads <$> _eventList s' = _threads <$> _eventList s /\
  length (heap s') = length (heap s).

Lemma same_tracking_trans (s1 s2 s3 : State) :
  same_tracking s1 s2 -> same_tracking s2 s3 -> same_tracking s1 s3.
Proof. unfold same_tracking; intros [H1 H2] [H3 H4]; split; congruence. Qed.

Lemma same_tracking_Thread_start tid (s : State) :
  same_tracking s (snd (Thread_start clock tid s)).
Proof.
  apply (preserves_Thread_start clock same_tracking
           (fun _ => conj eq_refl eq_refl) same_tracking_trans);
    unfold same_tracking; intros; simpl; rewrite ?length_alter;
    (split; [|reflexivity]);
    try reflexivity; apply map_alter_same; reflexivity.
Qed.

(** An asynchronous dispatch of a callable that has no [__name__] raises
    [AttributeError] before a thread is created and changes nothing.
    With a [__name__], a dispatch that returns has created one thread
    object, returns it and has appended it to the tracked collection of
    the task, whichever workers ran while the thread was started.  When
    none runs, the dispatch only creates, starts and records a worker: it
    invokes no user code, reads no clock, leaves the timestamp of the task
    as it was and every earlier thread object untouched. *)
Theorem async_call_frame cur ev (e : Event) (s : State) :
  _eventList s !! ev = Some e ->
  _spawnThread e = true ->
  (__name__ (_callable e) = None ->
   _call clock cur ev false s = (Exc AttributeError, s)) /\
  (forall r s',
     _call clock cur ev false s = (Ok r, s') ->
     r = RThread (length (heap s)) /\
     threads_of s' ev = Some (_threads e ++ [length (heap s)]) /\
     length (heap s') = S (length (heap s))) /\
  (__name__ (_callable e) <> None ->
   schedule s (length (heap s)) = [] ->
   exists s',
     _call clock cur ev false s = (Ok (RThread (length (heap s))), s') /\
     lastCallTime_of s' ev = Some (_lastCallTime e) /\
     threads_of s' ev = Some (_threads e ++ [length (heap s)]) /\
     user s' = user s /\
     reads s' = reads s /\
     length (heap s') = S (length (heap s)) /\
     (forall i, (i < length (heap s))%nat -> heap s' !! i = heap s !! i) /\
     trace s' = trace s ++ [ASpawn ev (length (heap s))]).
Proof.
  intros He Hs; split; [|split].
  - apply async_call_nameless; assumption.
  - intros r s'; unfold _call.
    rewrite (bind_ok _ _ _ _ _ (get_event_some _ _ _ He)), Hs; simpl.
    destruct (__name__ (_callable e)) as [nm|]; [|discriminate].
    unfold bind at 1, EventThread___init__.
    unfold bind at 1, modify.
    set (s1 := log _ _).
    pose proof (same_tracking_Thread_start (length (heap s)) s1)
      as [Hk1 Hk2].
    unfold bind.
    destruct (Thread_start clock (length (heap s)) s1) as [[[]|x|] s2];
      try discriminate.
    simpl in Hk1, Hk2.
    intros H; inversion H; subst; split; [reflexivity|].
    destruct (lookup_keeps _threads s s2 ev e Hk1 He) as (e2 & He2 & Ht2).
    split.
    + unfold threads_of; simpl.
      rewrite list_lookup_alter_eq, He2; simpl; rewrite Ht2; reflexivity.
    + simpl; rewrite Hk2, length_app; simpl; lia.
  - intros Hn Hsch.
    rewrite (async_call_spawns cur ev e s He Hs Hn Hsch).
    eexists; split; [reflexivity|]; simpl.
    unfold lastCallTime_of, threads_of; simpl.
    rewrite list_lookup_alter_eq, He; simpl.
    repeat split.
    + rewrite length_alter, length_app; simpl; lia.
    + intros i Hi.
      rewrite list_lookup_alter_ne by lia.
      apply lookup_app_l; exact Hi.
Qed.

(** ** Event: polling *)

Lemma callIfShouldCall_not_due cur ev (e : Event) (s : State) :
  _eventList s !! ev = Some e ->
  clock (reads s) <= _lastCallTime e + _timeBetweenCalls e ->
  callIfShouldCall clock cur ev s =
    (Ok tt, set_reads (S (reads s)) (log (APoll ev) s)).
Proof.
  intros He Hle; unfold callIfShouldCall, bind at 1, modify.
  unfold bind at 1, _shouldCall.
  rewrite (bind_ok _ _ _ _ _ (get_event_some ev e (log (APoll ev) s) He)).
  unfold bind, time_time, ret, due; simpl.
  apply Z.ltb_ge in Hle; rewrite Hle; reflexivity.
Qed.

(** A poll of a task that is not due reads the clock and does nothing
    else: it dispatches nothing and it does not reap, so finished workers,
    also failed ones, stay unnoticed until the task is due again. *)
Theorem poll_not_due_does_nothing cur ev (e : Event) (s : State) :
  _eventList s !! ev = Some e ->
  clock (reads s) <= _lastCallTime e + _timeBetweenCalls e ->
  exists s',
    callIfShouldCall clock cur ev s = (Ok tt, s') /\
    _eventList s' = _eventList s /\
    heap s' = heap s /\
    user s' = user s /\
    childException s' = childException s /\
    trace s' = trace s ++ [APoll ev].
Proof.
  intros He Hle.
  rewrite (callIfShouldCall_not_due cur ev e s He Hle).
  eexists; split; [reflexivity|]; simpl; auto 10.
Qed.

(** The loop of [_joinDeadThreads] changes no event. *)
Lemma reap_loop_events cur l (s : State) :
  _eventList
    (snd (for_each l
            (fun i =>
               bind (get_thread i)
                 (fun t => if negb (alive t)
                           then EventThread_join clock cur i else ret tt))
            s)) = _eventList s.
Proof.
  apply (preserves_for_each (fun s s' : State => _eventList s' = _eventList s));
    [reflexivity | intros s1 s2 s3 H1 H2; congruence |].
  intros i st; unfold bind at 1, get_thread.
  destruct (heap st !! i) as [t|] eqn:Ht; [|reflexivity].
  destruct (alive t) eqn:Ha; simpl; [reflexivity|].
  rewrite (EventThread_join_dead clock cur i t st Ht Ha); reflexivity.
Qed.

(** What a dispatch decision depends on, per event. *)
Definition timing (e : Event) : Z * Z * bool :=
  (_lastCallTime e, _timeBetweenCalls e, _spawnThread e).

(** [_joinDeadThreads] changes nothing of an event but its tracked
    collection. *)
Lemma joinDeadThreads_keeps {B} (g : Event -> B) cur ev (s : State) :
  (forall l e, g (set_threads l e) = g e) ->
  g <$> _eventList (snd (_joinDeadThreads clock cur ev s)) =
  g <$> _eventList s.
Proof.
  intros Hg.
  unfold _joinDeadThreads, bind at 1, get_event.
  destruct (_eventList s !! ev) as [e|]; [|reflexivity].
  unfold bind, modify.
  pose proof (reap_loop_events cur (_threads e) s) as Hl.
  destruct (for_each (_threads e) _ s) as [[[]|x|] s1]; simpl in Hl |- *;
    try (rewrite Hl; reflexivity).
  rewrite map_alter_same by (intros; apply Hg).
  rewrite Hl; reflexivity.
Qed.

Lemma joinDeadThreads_timing cur ev (s : State) :
  timing <$> _eventList (snd (_joinDeadThreads clock cur ev s)) =
  timing <$> _eventList s.
Proof. apply joinDeadThreads_keeps; reflexivity. Qed.

Lemma lookup_timing (s s' : State) ev (e : Event) :
  timing <$> _eventList s' = timing <$> _eventList s ->
  _eventList s !! ev = Some e ->
  exists e', _eventList s' !! ev = Some e' /\ timing e' = timing e.
Proof. apply lookup_keeps. Qed.

Lemma async_call_timing cur ev (e : Event) (s : State) :
  _eventList s !! ev = Some e ->
  _spawnThread e = true ->
  schedule s (length (heap s)) = [] ->
  timing <$> _eventList (snd (_call clock cur ev false s)) =
  timing <$> _eventList s.
Proof.
  intros He Hs Hsch.
  destruct (__name__ (_callable e)) as [nm|] eqn:Hn.
  - rewrite (async_call_spawns cur ev e s He Hs) by congruence; simpl.
    apply map_alter_same; reflexivity.
  - rewrite (async_call_nameless cur ev e s He Hs Hn); reflexivity.
Qed.

(** With a clock that never runs backwards, a poll of a synchronously
    dispatched task never fires it early: the poll either leaves the
    timestamp as it was or moves it forward by more than the interval. *)
Theorem sync_poll_never_early cur ev (e : Event) (s : State) :
  (forall n, clock n <= clock (S n)) ->
  _eventList s !! ev = Some e ->
  _spawnThread e = false ->
  exists t',
    lastCallTime_of (snd (callIfShouldCall clock cur ev s)) ev = Some t' /\
    (t' = _lastCallTime e \/
     _lastCallTime e + _timeBetweenCalls e < t').
Proof.
  intros Hmono He Hsync.
  destruct (Z.le_gt_cases (clock (reads s))
              (_lastCallTime e + _timeBetweenCalls e)) as [Hle|Hlt].
  - rewrite (callIfShouldCall_not_due cur ev e s He Hle).
    exists (_lastCallTime e); split; [|left; reflexivity].
    unfold lastCallTime_of; simpl; rewrite He; reflexivity.
  - exists (clock (S (reads s))); split; [|right; specialize (Hmono (reads s)); lia].
    set (s2 := set_reads (S (reads s)) (log (APoll ev) s)).
    assert (Hp : callIfShouldCall clock cur ev s =
                 bind (_call clock cur ev false)
                   (fun _ => _joinDeadThreads clock cur ev) s2).
    { unfold callIfShouldCall, bind at 1, modify.
      unfold bind at 1, _shouldCall.
      rewrite (bind_ok _ _ _ _ _
                 (get_event_some ev e (log (APoll ev) s) He)).
      unfold bind at 1, time_time, ret, due; simpl.
      apply Z.ltb_lt in Hlt; rewrite Hlt; reflexivity. }
    assert (Hc : forall st : State,
               snd (_call clock cur ev false s2) = st ->
               lastCallTime_of st ev = Some (clock (S (reads s)))).
    { intros st <-; unfold _call.
      rewrite (bind_ok _ _ _ _ _ (get_event_some ev e s2 He)), Hsync; simpl.
      unfold _call_inline, bind, time_time, modify, call_user; simpl.
      assert (Hl : forall st : State,
                 _eventList st =
                   alter (set_lastCallTime (clock (S (reads s)))) ev
                     (_eventList s) ->
                 lastCallTime_of st ev = Some (clock (S (reads s)))).
      { intros st E; unfold lastCallTime_of.
        rewrite E, list_lookup_alter_eq, He; reflexivity. }
      destruct (_callable e (user s)) as [[v|x|] u1]; simpl;
        try (apply Hl; reflexivity).
      destruct (_callback e) as [cb|]; simpl; [|apply Hl; reflexivity].
      destruct (cb v u1) as [[w|x|] u2]; simpl; apply Hl; reflexivity. }
    rewrite Hp; unfold bind.
    destruct (_call clock cur ev false s2) as [[r|x|] s3] eqn:E;
      simpl; try (apply Hc; reflexivity).
    pose proof (joinDeadThreads_timing cur ev s3) as Ht.
    specialize (Hc s3 eq_refl); unfold lastCallTime_of in Hc |- *.
    destruct (_eventList s3 !! ev) as [e3|] eqn:E3; [|discriminate].
    destruct (lookup_timing _ _ ev e3 Ht E3) as (e4 & -> & H4).
    simpl in Hc |- *; unfold timing in H4; congruence.
Qed.

Lemma async_poll_keeps_timing_aux cur ev (e : Event) (s : State) :
  _eventList s !! ev = Some e ->
  _spawnThread e = true ->
  schedule s (length (heap s)) = [] ->
  timing <$> _eventList (snd (callIfShouldCall clock cur ev s)) =
  timing <$> _eventList s.
Proof.
  intros He Hs Hsch.
  unfold callIfShouldCall, bind at 1, modify.
  unfold bind at 1, _shouldCall.
  rewrite (bind_ok _ _ _ _ _ (get_event_some ev e (log (APoll ev) s) He)).
  unfold bind at 1, time_time, ret; cbn beta iota.
  destruct (due _ _ _); [|reflexivity].
  set (s2 := set_reads _ _).
  pose proof (async_call_timing cur ev e s2 He Hs Hsch) as Ht.
  unfold bind.
  destruct (_call clock cur ev false s2) as [[r|x|] s3]; simpl in Ht |- *;
    try exact Ht.
  rewrite joinDeadThreads_timing; exact Ht.
Qed.

(** What no method ever changes of an event: its interval and its
    dispatch mode. *)
Definition pacing (e : Event) : Z * bool :=
  (_timeBetweenCalls e, _spawnThread e).

Definition same_pacing (s s' : State) : Prop :=
  pacing <$> _eventList s' = pacing <$> _eventList s.

Lemma same_pacing_trans (s1 s2 s3 : State) :
  same_pacing s1 s2 -> same_pacing s2 s3 -> same_pacing s1 s3.
Proof. unfold same_pacing; congruence. Qed.

Ltac pacing_steps :=
  unfold same_pacing; intros; simpl;
  try reflexivity; try (apply map_alter_same; reflexivity).

Lemma same_pacing_call cur ev b (s : State) :
  same_pacing s (snd (_call clock cur ev b s)).
Proof.
  unfold _call, bind at 1, get_event.
  destruct (_eventList s !! ev) as [e|]; [|reflexivity].
  destruct (_spawnThread e && negb b).
  - destruct (__name__ (_callable e)) as [nm|]; [|reflexivity].
    unfold bind at 1, EventThread___init__.
    unfold bind at 1, modify.
    set (s1 := log _ _).
    assert (H1 : same_pacing s s1) by reflexivity.
    pose proof (preserves_Thread_start clock same_pacing
                  (fun _ => eq_refl) same_pacing_trans) as Hp.
    unfold preserves in Hp.
    assert (H2 : same_pacing s1
                   (snd (Thread_start clock (length (heap s)) s1))).
    { apply Hp; pacing_steps. }
    unfold bind.
    destruct (Thread_start clock (length (heap s)) s1) as [[[]|x|] s2];
      simpl in H2 |- *;
      try (eapply same_pacing_trans; [exact H1 | exact H2]).
    eapply same_pacing_trans; [exact H1|].
    eapply same_pacing_trans; [exact H2|].
    pacing_steps.
  - change (same_pacing s (snd (_call_inline clock ev e s))).
    apply (preserves_call_inline clock same_pacing (fun _ => eq_refl)
             same_pacing_trans); pacing_steps.
Qed.

Lemma same_pacing_callIfShouldCall cur ev (s : State) :
  same_pacing s (snd (callIfShouldCall clock cur ev s)).
Proof.
  unfold callIfShouldCall, bind at 1, modify.
  unfold bind at 1, _shouldCall.
  unfold bind at 1, get_event; simpl.
  destruct (_eventList s !! ev) as [e|]; [|reflexivity].
  unfold bind at 1, time_time, ret; cbn beta iota.
  destruct (due _ _ _); [|reflexivity].
  set (s2 := set_reads _ _).
  assert (H1 : same_pacing s s2) by reflexivity.
  pose proof (same_pacing_call cur ev false s2) as H2.
  unfold bind.
  destruct (_call clock cur ev false s2) as [[r|x|] s3]; simpl in H2 |- *;
    try (eapply same_pacing_trans; [exact H1 | exact H2]).
  eapply same_pacing_trans; [exact H1|].
  eapply same_pacing_trans; [exact H2|].
  apply (joinDeadThreads_keeps pacing); reflexivity.
Qed.

(** Polling an asynchronously dispatched task writes no timestamp: when
    no worker runs while the poll starts its thread, every task has after
    the poll the timestamp, interval and dispatch mode it had before,
    whatever the outcome of the poll.  The timestamp is written only by
    the worker, when it runs; the interval and the dispatch mode of a
    task are changed by no poll, whichever workers run meanwhile. *)
Theorem async_poll_keeps_timing cur ev (e : Event) (s : State) :
  _eventList s !! ev = Some e ->
  _spawnThread e = true ->
  (schedule s (length (heap s)) = [] ->
   timing <$> _eventList (snd (callIfShouldCall clock cur ev s)) =
   timing <$> _eventList s) /\
  pacing <$> _eventList (snd (callIfShouldCall clock cur ev s)) =
  pacing <$> _eventList s.
Proof.
  intros He Hs; split.
  - intros Hsch; apply (async_poll_keeps_timing_aux cur ev e s He Hs Hsch).
  - apply same_pacing_callIfShouldCall.
Qed.

(** The loop of [_joinDeadThreads] only marks threads as joined and
    logs the joins. *)
Lemma reap_loop_frame (R : State -> State -> Prop) cur l (s : State) :
  (forall s, R s s) ->
  (forall s1 s2 s3, R s1 s2 -> R s2 s3 -> R s1 s3) ->
  (forall i s, R s (upd_thread i (set_isJoined true) (log (AJoin i) s))) ->
  R s (snd (for_each l
              (fun i =>
                 bind (get_thread i)
                   (fun t => if negb (alive t)
                             then EventThread_join clock cur i else ret tt))
              s)).
Proof.
  intros Hrefl Htrans Hstep.
  apply (preserves_for_each R Hrefl Htrans).
  intros i st; unfold bind at 1, get_thread.
  destruct (heap st !! i) as [t|] eqn:Ht; [|apply Hrefl].
  destruct (alive t) eqn:Ha; simpl; [apply Hrefl|].
  rewrite (EventThread_join_dead clock cur i t st Ht Ha); apply Hstep.
Qed.

Lemma joinDeadThreads_reads_heap cur ev (s : State) :
  reads (snd (_joinDeadThreads clock cur ev s)) = reads s /\
  length (heap (snd (_joinDeadThreads clock cur ev s))) = length (heap s).
Proof.
  remember (_joinDeadThreads clock cur ev s) as r eqn:Er.
  unfold _joinDeadThreads, bind at 1, get_event in Er.
  destruct (_eventList s !! ev) as [e|]; [|subst r; split; reflexivity].
  unfold bind, modify in Er.
  pose proof (reap_loop_frame
                (fun s s' : State =>
                   reads s' = reads s /\
                   length (heap s') = length (heap s))
                cur (_threads e) s) as Hl.
  destruct (for_each (_threads e) _ s) as [[[]|x|] s1]; subst r;
    simpl in Hl |- *;
    apply Hl; try (intros; split; reflexivity);
    try (intros s1' s2' s3' [H1 H2] [H3 H4]; split; congruence);
    intros i st; simpl; rewrite length_alter; split; reflexivity.
Qed.

(** A due task with asynchronous dispatch is dispatched again by the next
    poll when no worker has run in between: the first poll leaves the
    timestamp as it was, so the second one, if the clock is still past
    the interval, spawns a second worker. *)
Theorem async_double_dispatch cur ev (e : Event) (s s1 : State) :
  _eventList s !! ev = Some e ->
  _spawnThread e = true ->
  schedule s (length (heap s)) = [] ->
  _lastCallTime e + _timeBetweenCalls e < clock (reads s) ->
  _lastCallTime e + _timeBetweenCalls e < clock (S (reads s)) ->
  callIfShouldCall clock cur ev s = (Ok tt, s1) ->
  length (heap s1) = S (length (heap s)) /\
  exists rest,
    trace (snd (callIfShouldCall clock cur ev s1)) =
      trace s1 ++ APoll ev :: ASpawn ev (S (length (heap s))) :: rest.
Proof.
  intros He Hs Hsch Hd1 Hd2 Hp.
  pose proof (async_poll_keeps_timing_aux cur ev e s He Hs Hsch) as Ht.
  rewrite Hp in Ht; simpl in Ht.
  destruct (lookup_timing _ _ ev e Ht He) as (e1 & He1 & Hte).
  unfold timing in Hte; inversion Hte as [[Hl Hi Hsp]].
  (* the first poll: one clock read, one new thread, a callable with a
     name *)
  assert (Hfirst : reads s1 = S (reads s) /\
                   length (heap s1) = S (length (heap s)) /\
                   __name__ (_callable e) <> None /\
                   __name__ (_callable e1) = __name__ (_callable e)).
  { revert Hp He1; unfold callIfShouldCall, bind at 1, modify.
    unfold bind at 1, _shouldCall.
    rewrite (bind_ok _ _ _ _ _
               (get_event_some ev e (log (APoll ev) s) He)).
    unfold bind at 1, time_time, ret, due; simpl.
    apply Z.ltb_lt in Hd1; rewrite Hd1.
    set (s2 := set_reads _ _).
    destruct (__name__ (_callable e)) as [nm|] eqn:Hn.
    - assert (Hn' : __name__ (_callable e) <> None) by congruence.
      unfold bind.
      rewrite (async_call_spawns cur ev e s2 He Hs Hn' Hsch).
      set (s3 := upd_event _ _ _).
      destruct (joinDeadThreads_reads_heap cur ev s3) as [Hr Hh].
      pose proof (joinDeadThreads_keeps
                    (fun e : Event => __name__ (_callable e)) cur ev s3
                    (fun _ _ => eq_refl)) as Hc.
      destruct (_joinDeadThreads clock cur ev s3) as [[[]|x|] s4] eqn:E4;
        try discriminate.
      intros H He1; inversion H; subst s4; simpl in Hr, Hh.
      cbn [snd] in Hc.
      split; [exact Hr|]; split.
      + rewrite Hh; subst s3; simpl.
        rewrite length_alter, length_app; simpl; lia.
      + split; [discriminate|].
        assert (Hc3 : (fun e : Event => __name__ (_callable e)) <$>
                        _eventList s3 =
                      (fun e : Event => __name__ (_callable e)) <$>
                        _eventList s).
        { subst s3; simpl; apply map_alter_same; reflexivity. }
        rewrite Hc3 in Hc.
        destruct (lookup_keeps _ _ _ ev e Hc He) as (e1' & He1' & Hk).
        rewrite He1 in He1'; inversion He1'; subst e1'.
        cbn beta in Hk; congruence.
    - unfold bind.
      rewrite (async_call_nameless cur ev e s2 He Hs Hn); discriminate. }
  destruct Hfirst as (Hr1 & Hh1 & Hn & Hc1); split; [exact Hh1|].
  (* the second poll *)
  unfold callIfShouldCall, bind at 1, modify.
  unfold bind at 1, _shouldCall.
  rewrite (bind_ok _ _ _ _ _
             (get_event_some ev e1 (log (APoll ev) s1) He1)).
  unfold bind at 1, time_time, ret, due; simpl.
  rewrite Hl, Hi, Hr1.
  apply Z.ltb_lt in Hd2; rewrite Hd2.
  set (s2 := set_reads _ _).
  destruct (call_first_action clock cur ev e1 s2 He1) as [r1 H1].
  { right; rewrite Hc1; exact Hn. }
  unfold first_action in H1; rewrite Hsp, Hs in H1; simpl in H1.
  rewrite Hh1 in H1.
  unfold bind.
  destruct (_call clock cur ev false s2) as [[a|x|] s3] eqn:E;
    simpl in H1 |- *.
  - destruct (trace_ext_joinDeadThreads clock cur ev s3) as [r2 H2].
    exists (r1 ++ r2); rewrite H2, H1.
    rewrite <- !app_assoc; reflexivity.
  - exists r1; rewrite H1, <- !app_assoc; reflexivity.
  - exists r1; rewrite H1, <- !app_assoc; reflexivity.
Qed.

(** ** EventManager: the driver *)




Lemma poll_seq_not_due cur m : forall k (st : State),
  (k + m <= length (_eventList st))%nat ->
  (forall i (e : Event),
     (k <= i < k + m)%nat ->
     _eventList st !! i = Some e ->
     clock (reads st + (i - k)) <= _lastCallTime e + _timeBetweenCalls e) ->
  exists st',
    for_each (seq k m) (callIfShouldCall clock cur) st = (Ok tt, st') /\
    _eventList st' = _eventList st /\
    heap st' = heap st /\
    user st' = user st /\
    childException st' = childException st /\
    reads st' = (reads st + m)%nat /\
    trace st' = trace st ++ map APoll (seq k m).
Proof.
  induction m as [|m IH]; intros k st Hlen Hdue.
  - exists st; simpl; rewrite app_nil_r, Nat.add_0_r; auto 10.
  - assert (Hk : (k < length (_eventList st))%nat) by lia.
    destruct (lookup_lt_is_Some_2 _ _ Hk) as [e He].
    assert (Hnd : clock (reads st) <= _lastCallTime e + _timeBetweenCalls e).
    { specialize (Hdue k e ltac:(lia) He).
      rewrite Nat.sub_diag, Nat.add_0_r in Hdue; exact Hdue. }
    cbn [seq for_each]; unfold bind at 1.
    rewrite (callIfShouldCall_not_due cur k e st He Hnd).
    set (st1 := set_reads (S (reads st)) (log (APoll k) st)).
    destruct (IH (S k) st1) as (st' & Hr & He' & Hh & Hu & Hc & Hrd & Htr).
    { simpl; lia. }
    { intros i e' Hi Hl; simpl in Hl |- *.
      replace (S (reads st + (i - S k)))%nat with (reads st + (i - k))%nat
        by lia.
      apply Hdue; [lia | exact Hl]. }
    exists st'; split; [exact Hr|].
    simpl in He', Hh, Hu, Hc, Hrd, Htr.
    repeat split; auto.
    + rewrite Hrd; lia.
    + rewrite Htr, <- app_assoc; reflexivity.
Qed.

(** A pass over tasks none of which is due polls each of them once, in
    registration order, and does nothing else: no task is dispatched, no
    worker is joined, no failure is recorded. *)
Theorem pass_nothing_due (s : State) :
  (forall i (e : Event),
     _eventList s !! i = Some e ->
     clock (reads s + i) <= _lastCallTime e + _timeBetweenCalls e) ->
  exists s',
    pass clock s = (Ok tt, s') /\
    _eventList s' = _eventList s /\
    heap s' = heap s /\
    user s' = user s /\
    childException s' = childException s /\
    reads s' = (reads s + length (_eventList s))%nat /\
    trace s' = trace s ++ map APoll (seq 0 (length (_eventList s))).
Proof.
  intros Hdue; unfold pass, bind, gets.
  apply poll_seq_not_due; [simpl; lia|].
  intros i e _ He; rewrite Nat.sub_0_r; apply Hdue; exact He.
Qed.

(** ** EventManager: stop *)

(** [stop] called on the driver thread itself, as a callback of a
    synchronously dispatched task does, fails: joining the current thread
    raises [RuntimeError].  The continue-flag has then been cleared, no
    worker has been joined, and the stop-in-progress flag is left set. *)
Theorem stop_from_driver_raises fuel th (s : State) :
  _stopInProgress s = false ->
  _thread s = Some th ->
  stop clock DriverThread fuel s =
    (Exc RuntimeError, set_shouldContinue false (set_stopInProgress true s)) /\
  _stopInProgress (snd (stop clock DriverThread fuel s)) = true /\
  _eventList (snd (stop clock DriverThread fuel s)) = _eventList s /\
  heap (snd (stop clock DriverThread fuel s)) = heap s.
Proof.
  intros Hf Ht.
  destruct s; simpl in Hf, Ht; subst.
  repeat split.
Qed.

(** The tracked collections after [Event.join]: the one of the joined
    event is cleared when the call returns, nothing changes otherwise. *)
Lemma Event_join_threads cur j (s : State) :
  _threads <$> _eventList (snd (Event_join clock cur j s)) =
  match fst (Event_join clock cur j s) with
  | Ok _ => alter (fun _ => []) j (_threads <$> _eventList s)
  | _ => _threads <$> _eventList s
  end.
Proof.
  remember (Event_join clock cur j s) as r eqn:Er.
  unfold Event_join, bind at 1, get_event in Er.
  destruct (_eventList s !! j) as [e|]; [|subst r; reflexivity].
  pose proof (preserves_for_each same_threads (fun _ => eq_refl)
                (fun s1 s2 s3 (H1 : same_threads s1 s2)
                     (H2 : same_threads s2 s3) => eq_trans H2 H1)
                (_threads e) (EventThread_join clock cur)
                (same_threads_EventThread_join clock cur) s) as Hsame.
  unfold bind, modify in Er.
  destruct (for_each (_threads e) (EventThread_join clock cur) s)
    as [[[]|x|] s1]; subst r; unfold same_threads in Hsame;
    simpl in Hsame |- *; try exact Hsame.
  rewrite <- Hsame; apply list_fmap_alter, Forall_forall; reflexivity.
Qed.

Lemma drain_loop cur l : forall (s s' : State),
  for_each l (Event_join clock cur) s = (Ok tt, s') ->
  length (_eventList s') = length (_eventList s) /\
  forall ev tl,
    threads_of s' ev = Some tl ->
    ev ∈ l \/ threads_of s ev = Some [] ->
    tl = [].
Proof.
  induction l as [|j l IH]; intros s s' H.
  - inversion H; subst; split; [reflexivity|].
    intros ev tl Ht [Hin|Hn]; [inversion Hin | congruence].
  - simpl in H; unfold bind in H.
    pose proof (Event_join_threads cur j s) as Hj.
    destruct (Event_join clock cur j s) as [[[]|x|] s1] eqn:E;
      try discriminate.
    simpl in Hj.
    destruct (IH s1 s' H) as [Hlen IH'].
    split.
    + rewrite Hlen, <- (length_fmap _threads), Hj, length_alter, length_fmap.
      reflexivity.
    + intros ev tl Ht Hor.
      apply (IH' ev tl Ht).
      destruct (decide (ev ∈ l)) as [Hin|Hnin]; [left; exact Hin|right].
      unfold threads_of; rewrite <- list_lookup_fmap, Hj.
      destruct (decide (j = ev)) as [->|Hne].
      * rewrite list_lookup_alter_eq.
        destruct ((_threads <$> _eventList s) !! ev) eqn:El; [reflexivity|].
        exfalso.
        unfold threads_of in Ht.
        rewrite <- list_lookup_fmap in Ht.
        apply lookup_lt_Some in Ht; apply lookup_ge_None in El.
        rewrite length_fmap in Ht, El.
        rewrite Hlen, <- (length_fmap _threads (_eventList s1)), Hj,
          length_alter, length_fmap in Ht.
        lia.
      * rewrite list_lookup_alter_ne by exact Hne.
        destruct Hor as [Hin|Hn].
        -- apply elem_of_cons in Hin as [->|Hin]; [congruence|contradiction].
        -- unfold threads_of in Hn; rewrite <- list_lookup_fmap in Hn.
           exact Hn.
Qed.

Definition same_shouldContinue (s s' : State) : Prop :=
  _shouldContinue s' = _shouldContinue s.

Lemma same_shouldContinue_trans (s1 s2 s3 : State) :
  same_shouldContinue s1 s2 -> same_shouldContinue s2 s3 ->
  same_shouldContinue s1 s3.
Proof. unfold same_shouldContinue; congruence. Qed.

(** The shape of a [stop] that performs the drain and returns. *)
Lemma stop_ok_inv cur fuel (s s' : State) :
  _stopInProgress s = false ->
  stop clock cur fuel s = (Ok tt, s') ->
  exists s1 s2,
    (match _thread s with
     | Some _ => Thread_join_driver clock cur fuel
     | None => ret tt
     end) (set_shouldContinue false (set_stopInProgress true s)) =
      (Ok tt, s1) /\
    for_each (seq 0 (length (_eventList s1))) (Event_join clock cur) s1 =
      (Ok tt, s2) /\
    s' = set_stopInProgress false s2.
Proof.
  intros Hf; unfold stop, bind at 1, gets; rewrite Hf; cbn [negb].
  unfold bind at 1, modify.
  unfold bind at 1.
  unfold bind at 1; cbn beta iota.
  unfold bind at 1.
  change (_thread (set_shouldContinue false (set_stopInProgress true s)))
    with (_thread s).
  destruct ((match _thread s with
             | Some _ => Thread_join_driver clock cur fuel
             | None => ret tt
             end) (set_shouldContinue false (set_stopInProgress true s)))
    as [[[]|y|] s1]; try discriminate.
  unfold bind at 1, gets.
  unfold bind, modify.
  destruct (for_each (seq 0 (length (_eventList s1)))
              (Event_join clock cur) s1) as [[[]|y|] s2] eqn:E2;
    try discriminate.
  intros H; inversion H; subst.
  exists s1, s2; auto.
Qed.

(** When a [stop] that performs the drain returns, the manager is
    drained: no task tracks a worker any more, the continue-flag is
    cleared and the stop-in-progress flag is reset. *)
Theorem stop_ok_drained cur fuel (s s' : State) :
  _stopInProgress s = false ->
  stop clock cur fuel s = (Ok tt, s') ->
  _stopInProgress s' = false /\
  _shouldContinue s' = false /\
  forall ev (e : Event), _eventList s' !! ev = Some e -> _threads e = [].
Proof.
  intros Hf H.
  destruct (stop_ok_inv cur fuel s s' Hf H) as (s1 & s2 & E1 & E2 & ->).
  split; [reflexivity|].
  destruct (drain_loop cur _ s1 s2 E2) as [Hlen Hd].
  split.
  - simpl.
    pose proof (preserves_for_each same_shouldContinue (fun _ => eq_refl)
                  same_shouldContinue_trans
                  (seq 0 (length (_eventList s1))) (Event_join clock cur)
                  (preserves_Event_join clock same_shouldContinue
                     (fun _ => eq_refl) same_shouldContinue_trans
                     (fun _ _ => eq_refl) (fun _ _ => eq_refl)
                     (fun _ _ => eq_refl) (fun _ _ _ => eq_refl)
                     (fun _ _ => eq_refl) cur) s1) as H2.
    rewrite E2 in H2; unfold same_shouldContinue in H2; simpl in H2.
    rewrite H2.
    assert (H1 : _shouldContinue s1 =
                 _shouldContinue
                   (set_shouldContinue false (set_stopInProgress true s))).
    { destruct (_thread s).
      - pose proof (preserves_Thread_join_driver clock same_shouldContinue
                      (fun _ => eq_refl) same_shouldContinue_trans
                      (fun _ _ => eq_refl) (fun _ _ => eq_refl)
                      (fun _ _ => eq_refl) (fun _ _ _ => eq_refl)
                      (fun _ _ => eq_refl) (fun _ _ => eq_refl)
                      (fun _ _ => eq_refl) (fun _ _ => eq_refl)
                      (fun _ _ => eq_refl) cur fuel
                      (set_shouldContinue false (set_stopInProgress true s)))
          as H1.
        rewrite E1 in H1; exact H1.
      - inversion E1; reflexivity. }
    rewrite H1; reflexivity.
  - intros ev e He; simpl in He.
    apply (Hd ev (_threads e)).
    + unfold threads_of; rewrite He; reflexivity.
    + left; apply elem_of_seq.
      apply lookup_lt_Some in He; lia.
Qed.

(** Every worker has finished and none holds an exception. *)
Definition workers_finished_clean (h : list EventThread) : Prop :=
  forall i t, h !! i = Some t -> alive t = false /\ exception t = None.

(** Every tracked reference names a thread object. *)
Definition tracked_valid (s : State) : Prop :=
  forall ev (e : Event),
    _eventList s !! ev = Some e ->
    Forall (fun i => (i < length (heap s))%nat) (_threads e).

Lemma join_loop_clean cur l : forall st : State,
  workers_finished_clean (heap st) ->
  Forall (fun i => (i < length (heap st))%nat) l ->
  exists st',
    for_each l (EventThread_join clock cur) st = (Ok tt, st') /\
    workers_finished_clean (heap st') /\
    length (heap st') = length (heap st) /\
    _eventList st' = _eventList st.
Proof.
  induction l as [|i l IH]; intros st Hc Hv.
  - exists st; auto.
  - inversion Hv as [|? ? Hi Hl]; subst.
    destruct (lookup_lt_is_Some_2 _ _ Hi) as [t Ht].
    destruct (Hc i t Ht) as [Ha Hx].
    cbn [for_each]; unfold bind at 1.
    rewrite (EventThread_join_dead clock cur i t st Ht Ha), Hx.
    cbn [result_of].
    set (st1 := upd_thread i (set_isJoined true) (log (AJoin i) st)).
    destruct (IH st1) as (st' & Hr & Hc' & Hlen & He).
    + intros j tj; simpl; rewrite list_lookup_alter.
      destruct (decide (i = j)) as [->|]; [|apply Hc].
      rewrite Ht; simpl; intros H; inversion H; subst; simpl; auto.
    + simpl; rewrite length_alter; exact Hl.
    + exists st'; split; [exact Hr|]; split; [exact Hc'|].
      simpl in Hlen, He; rewrite length_alter in Hlen; auto.
Qed.

Lemma Event_join_clean cur ev (st : State) :
  workers_finished_clean (heap st) ->
  tracked_valid st ->
  (ev < length (_eventList st))%nat ->
  exists st',
    Event_join clock cur ev st = (Ok tt, st') /\
    workers_finished_clean (heap st') /\
    tracked_valid st' /\
    length (_eventList st') = length (_eventList st).
Proof.
  intros Hc Hv Hev.
  destruct (lookup_lt_is_Some_2 _ _ Hev) as [e He].
  destruct (join_loop_clean cur (_threads e) st Hc (Hv ev e He))
    as (st1 & Hr & Hc1 & Hlen & Hev1).
  unfold Event_join.
  rewrite (bind_ok _ _ _ _ _ (get_event_some _ _ _ He)).
  unfold bind, modify; rewrite Hr.
  eexists; split; [reflexivity|]; simpl.
  split; [exact Hc1|]; split.
  - intros j ej; simpl; rewrite list_lookup_alter, Hev1, Hlen.
    destruct (decide (ev = j)) as [->|]; [|apply Hv].
    rewrite He; simpl; intros H; inversion H; subst; simpl; constructor.
  - rewrite length_alter, Hev1; reflexivity.
Qed.

Lemma drain_clean cur l : forall st : State,
  workers_finished_clean (heap st) ->
  tracked_valid st ->
  Forall (fun ev => (ev < length (_eventList st))%nat) l ->
  exists st', for_each l (Event_join clock cur) st = (Ok tt, st').
Proof.
  induction l as [|ev l IH]; intros st Hc Hv Hl.
  - exists st; reflexivity.
  - inversion Hl as [|? ? Hev Hl']; subst.
    destruct (Event_join_clean cur ev st Hc Hv Hev)
      as (st1 & Hr & Hc1 & Hv1 & Hlen).
    cbn [for_each]; unfold bind at 1; rewrite Hr.
    apply IH; auto.
    rewrite Hlen; exact Hl'.
Qed.

(** When every worker has finished without failure and the driver is not
    inside a pass, a [stop] from a thread other than the driver performs
    the drain and returns normally. *)
Theorem stop_returns_when_workers_clean cur fuel (s : State) :
  _stopInProgress s = false ->
  cur <> DriverThread ->
  pending s = [] ->
  workers_finished_clean (heap s) ->
  tracked_valid s ->
  exists s', stop clock cur fuel s = (Ok tt, s').
Proof.
  intros Hf Hcur Hpend Hc Hv.
  set (s0 := set_shouldContinue false (set_stopInProgress true s)).
  assert (Hdrv : exists s1,
            (match _thread s0 with
             | Some _ => Thread_join_driver clock cur fuel
             | None => ret tt
             end) s0 = (Ok tt, s1) /\
            _eventList s1 = _eventList s /\ heap s1 = heap s).
  { destruct (_thread s0) as [th|] eqn:Ht.
    - destruct (Thread_join_driver_idle clock cur fuel s0 eq_refl Hpend)
        as (r & s1 & E & _ & He & Hh & Hr).
      rewrite (Hr Hcur) in E by congruence.
      exists s1; auto.
    - exists s0; auto. }
  destruct Hdrv as (s1 & E1 & He1 & Hh1).
  destruct (drain_clean cur (seq 0 (length (_eventList s1))) s1)
    as [s2 E2].
  - rewrite Hh1; exact Hc.
  - intros ev e; rewrite He1, Hh1; apply Hv.
  - apply Forall_forall; intros ev Hin; apply elem_of_seq in Hin; lia.
  - exists (set_stopInProgress false s2).
    unfold stop, bind at 1, gets; rewrite Hf; cbn [negb].
    unfold bind at 1, modify.
    unfold bind at 1.
    unfold bind at 1; cbn beta iota.
    unfold bind at 1.
    fold s0; rewrite E1.
    unfold bind at 1, gets.
    unfold bind, modify; rewrite E2; reflexivity.
Qed.

(** ** Dispatch and join together *)

(** What the work of a task does to the user state: the callable, then
    the callback on its result. *)
Definition work_outcome (e : Event) (u : U) : outcome val * U :=
  match _callable e u with
  | (Ok v, u1) =>
      match _callback e with
      | Some cb => cb v u1
      | None => (Ok v, u1)
      end
  | r => r
  end.

(** What [join] reports of the work of the worker: only an instance of
    [Exception] reaches the joining thread. *)
Definition join_result (r : outcome val) : outcome unit :=
  match r with
  | NoResult => NoResult
  | _ => result_of (captured r)
  end.

(** The inline call, as a worker makes it. *)
Lemma call_inline_outcome cur ev (e : Event) (st : State) :
  _eventList st !! ev = Some e ->
  exists r st',
    _call clock cur ev true st = (r, st') /\
    match r, fst (work_outcome e (user st)) with
    | Ok _, Ok _ => True
    | Exc x, Exc y => x = y
    | NoResult, NoResult => True
    | _, _ => False
    end /\
    user st' = snd (work_outcome e (user st)) /\
    lastCallTime_of st' ev = Some (clock (reads st)).
Proof.
  intros He; rewrite call_true_eq; unfold work_outcome.
  rewrite (bind_ok _ _ _ _ _ (get_event_some _ _ _ He)).
  unfold _call_inline, bind, time_time, modify, call_user; simpl.
  assert (Hl : forall st' : State,
             _eventList st' =
               alter (set_lastCallTime (clock (reads st))) ev
                 (_eventList st) ->
             lastCallTime_of st' ev = Some (clock (reads st))).
  { intros st' E; unfold lastCallTime_of.
    rewrite E, list_lookup_alter_eq, He; reflexivity. }
  destruct (_callable e (user st)) as [[v|x|] u1]; simpl.
  - destruct (_callback e) as [cb|]; simpl.
    + destruct (cb v u1) as [[w|x|] u2]; simpl;
        eexists; eexists; (split; [reflexivity|]); simpl; auto.
    + eexists; eexists; (split; [reflexivity|]); simpl; auto.
  - eexists; eexists; (split; [reflexivity|]); simpl; auto.
  - eexists; eexists; (split; [reflexivity|]); simpl; auto.
Qed.

(** An asynchronous dispatch of a callable with a [__name__], during
    which no worker runs, followed by a join of the spawned worker from
    another thread: the work runs once, on the user state of the
    dispatch; the timestamp of the task is a clock reading taken by the
    worker; [join] returns when the work returned, raises the exception
    of the work when it is an instance of [Exception], and returns when
    the work raised another exception; the worker is left finished,
    marked as joined and holding what [join] raised. *)
Theorem async_dispatch_then_join cur cur' ev (e : Event) (s : State) :
  _eventList s !! ev = Some e ->
  _spawnThread e = true ->
  __name__ (_callable e) <> None ->
  schedule s (length (heap s)) = [] ->
  is_worker cur' (length (heap s)) = false ->
  fst (work_outcome e (user s)) <> NoResult ->
  exists s1 s2,
    _call clock cur ev false s = (Ok (RThread (length (heap s))), s1) /\
    EventThread_join clock cur' (length (heap s)) s1 =
      (join_result (fst (work_outcome e (user s))), s2) /\
    user s2 = snd (work_outcome e (user s)) /\
    lastCallTime_of s2 ev = Some (clock (reads s)) /\
    heap s2 !! length (heap s) =
      Some (mkEventThread ev (captured (fst (work_outcome e (user s))))
              true true false).
Proof.
  intros He Hs Hn Hsch Hw Hnr.
  set (tid := length (heap s)) in *.
  set (t1 := mkEventThread ev None true false true).
  assert (Hcall : exists s1,
             _call clock cur ev false s = (Ok (RThread tid), s1) /\
             heap s1 !! tid = Some t1 /\
             _eventList s1 !! ev =
               Some (set_threads (_threads e ++ [tid]) e) /\
             user s1 = user s /\ reads s1 = reads s).
  { rewrite (async_call_spawns cur ev e s He Hs Hn Hsch).
    eexists; split; [reflexivity|]; simpl.
    rewrite !list_lookup_alter_eq, list_lookup_middle, He by reflexivity.
    auto. }
  destruct Hcall as (s1 & Hc & Ht1 & He1 & Hu1 & Hr1).
  exists s1.
  destruct (call_inline_outcome (WorkerThread tid) ev _
              (log (AJoin tid) s1) He1)
    as (r & s2 & E & Hjr & Hu2 & Hl2).
  pose proof (call_inline_heap (WorkerThread tid) ev (log (AJoin tid) s1))
    as Hh2.
  rewrite E in Hh2.
  simpl in Hh2.
  change (user (log (AJoin tid) s1)) with (user s1) in Hjr, Hu2.
  change (reads (log (AJoin tid) s1)) with (reads s1) in Hl2.
  change (work_outcome (set_threads (_threads e ++ [tid]) e))
    with (work_outcome e) in Hjr, Hu2.
  rewrite Hu1 in Hjr, Hu2; rewrite Hr1 in Hl2.
  rewrite (join_live_worker_eq cur' tid t1 s1 Ht1 eq_refl eq_refl Hw).
  change (target t1) with ev; rewrite E.
  assert (Hres : forall r' : outcome retval,
             r' = r -> r <> NoResult ->
             result_of (captured r') =
               join_result (fst (work_outcome e (user s))) /\
             captured r' = captured (fst (work_outcome e (user s)))).
  { intros r' ->; destruct r as [rv|x|];
      destruct (fst (work_outcome e (user s))) as [v|y|];
      try contradiction; intros _; subst; split; reflexivity. }
  assert (Hfin : forall r' : outcome retval,
             r' = r ->
             user (joined_state tid r' s2) = snd (work_outcome e (user s)) /\
             lastCallTime_of (joined_state tid r' s2) ev =
               Some (clock (reads s))).
  { intros r' _; unfold joined_state; destruct (captured r'); simpl;
      split; try exact Hu2; unfold lastCallTime_of in Hl2 |- *; exact Hl2. }
  destruct r as [rv|x|].
  - destruct (Hres _ eq_refl ltac:(discriminate)) as [H1 H2].
    destruct (Hfin _ eq_refl) as [H3 H4].
    eexists; split; [exact Hc|]; split; [rewrite H1; reflexivity|].
    split; [exact H3|]; split; [exact H4|].
    rewrite (joined_state_thread tid t1 _ s1 s2 Ht1 eq_refl Hh2), H2.
    reflexivity.
  - destruct (Hres _ eq_refl ltac:(discriminate)) as [H1 H2].
    destruct (Hfin _ eq_refl) as [H3 H4].
    eexists; split; [exact Hc|]; split; [rewrite H1; reflexivity|].
    split; [exact H3|]; split; [exact H4|].
    rewrite (joined_state_thread tid t1 _ s1 s2 Ht1 eq_refl Hh2), H2.
    reflexivity.
  - destruct (fst (work_outcome e (user s))); try contradiction.
Qed.

(** ** Reaping leaves running workers alone *)

Lemma reap_scan_joined_dead h l i :
  i ∈ fst (reap_scan h l) ->
  exists t, h !! i = Some t /\ alive t = false.
Proof.
  induction l as [|j l IH]; simpl; [intros H; inversion H|].
  destruct (h !! j) as [t|] eqn:Ht; [|intros H; inversion H].
  destruct (alive t) eqn:Ha; [exact IH|].
  destruct (exception t); simpl; intros H;
    apply elem_of_cons in H as [->|H]; eauto.
  inversion H.
Qed.

Lemma mark_joined_other l : forall h i,
  i ∉ l -> mark_joined l h !! i = h !! i.
Proof.
  induction l as [|j l IH]; intros h i Hn; [reflexivity|].
  apply not_elem_of_cons in Hn as [Hne Hn].
  unfold mark_joined in *; simpl.
  rewrite IH by exact Hn.
  apply list_lookup_alter_ne; congruence.
Qed.

(** A reap pass never touches a worker that is still running: after a pass
    that returns, such a worker has the fields it had before and, unless
    it was already marked as joined, is still tracked. *)
Theorem reap_keeps_live_workers cur ev (e : Event) i t (s s' : State) :
  _eventList s !! ev = Some e ->
  Forall (fun i => (i < length (heap s))%nat) (_threads e) ->
  i ∈ _threads e ->
  heap s !! i = Some t ->
  alive t = true ->
  _joinDeadThreads clock cur ev s = (Ok tt, s') ->
  heap s' !! i = Some t /\
  (isJoined t = false ->
   exists l, threads_of s' ev = Some l /\ i ∈ l).
Proof.
  intros He Hv Hin Ht Ha.
  destruct (reap_loop clock cur (_threads e) s Hv)
    as (s1 & Hr & _ & Hh & Hev).
  unfold _joinDeadThreads.
  rewrite (bind_ok _ _ _ _ _ (get_event_some _ _ _ He)).
  unfold bind at 1; rewrite Hr.
  assert (Hi : heap s1 !! i = Some t).
  { rewrite Hh, mark_joined_other; [exact Ht|].
    intros Hj; apply reap_scan_joined_dead in Hj as (t' & Ht' & Ha').
    congruence. }
  destruct (snd (reap_scan (heap s) (_threads e))); cbn [result_of];
    [discriminate|].
  unfold modify; intros H; inversion H; subst s'; simpl.
  split; [exact Hi|].
  intros Hj; unfold threads_of; simpl.
  rewrite list_lookup_alter_eq, Hev, He; simpl.
  eexists; split; [reflexivity|].
  apply list_elem_of_In, filter_In; split; [apply list_elem_of_In, Hin|].
  unfold thread_isJoined; rewrite Hi, Hj; reflexivity.
Qed.

End Further.

(** * Concrete runs for the further properties *)

Module FurtherRun.

Import Run.

(** A clock that stands at 3. *)
Definition clk3 (n : nat) : Z := 3.

(** The failing task as the states [async0] and [async1] hold it, and as
    [async2] holds it. *)
Definition boom_event : @Event nat := mkEvent boom 1 None true 0 [].
Definition boom_tracked : @Event nat := mkEvent boom 1 None true 0 [0%nat].
Definition count_event : @Event nat :=
  mkEvent count_ok 5 (Some plus_one) false 0 [].

Definition worker_running : EventThread :=
  mkEventThread 0 None true false true.
Definition worker_failed : EventThread :=
  mkEventThread 0 (Some (UserError 7)) true false false.

(** With the eager schedule the failure of the work is found by the reap
    of the poll that dispatched it: the first pass of the driver ends the
    loop and records the failure. *)
Example eager_worker_fails_in_same_poll :
  fst (pass clk async_eager) = Exc (UserError 7) /\
  childException (snd (_execute clk 1 async_eager)) = Some (UserError 7) /\
  heap (snd (pass clk async_eager)) =
    [mkEventThread 0 (Some (UserError 7)) true true false] /\
  lastCallTime_of (snd (pass clk async_eager)) 0 = Some 100.
Proof. repeat split; vm_compute; reflexivity. Qed.

Lemma wrapped_run_captures_witness :
  (_wrapped_run clk 0 async2 =
     (Ok tt,
      upd_thread 0 (set_exception (Some (UserError 7)))
        (snd (_call clk (WorkerThread 0) 0 true async2))) /\
   exception <$> heap (snd (_wrapped_run clk 0 async2)) !! 0%nat =
     Some (Some (UserError 7))) /\
  (_wrapped_run clk 0 async_base2 =
     (Exc (BaseError 1),
      snd (_call clk (WorkerThread 0) 0 true async_base2)) /\
   exception <$>
     heap (snd (_call clk (WorkerThread 0) 0 true async_base2)) !! 0%nat =
     Some None).
Proof.
  split.
  - refine (proj2 (wrapped_run_captures clk 0 worker_running async2
                     eq_refl) (UserError 7) _ _).
    vm_compute; reflexivity.
  - refine (proj2 (wrapped_run_captures clk 0 worker_running async_base2
                     eq_refl) (BaseError 1) _ _).
    vm_compute; reflexivity.
Defined.

Lemma join_live_worker_witness :
  (exists s',
     EventThread_join clk MainThread 0 async2 = (Exc (UserError 7), s') /\
     heap s' !! 0%nat =
       Some (mkEventThread 0 (Some (UserError 7)) true true false)) /\
  (exists s',
     EventThread_join clk MainThread 0 async_base2 = (Ok tt, s') /\
     heap s' !! 0%nat = Some (mkEventThread 0 None true true false)).
Proof.
  split.
  - exact (join_live_worker clk MainThread 0 worker_running async2
             eq_refl eq_refl eq_refl eq_refl).
  - exact (join_live_worker clk MainThread 0 worker_running async_base2
             eq_refl eq_refl eq_refl eq_refl).
Defined.

Lemma self_join_marks_joined_witness :
  exists s',
    EventThread_join clk (WorkerThread 0) 0 async2 = (Ok tt, s') /\
    heap s' !! 0%nat = Some (mkEventThread 0 None true true true) /\
    true = true /\
    user s' = user async2 /\ reads s' = reads async2 /\
    _eventList s' = _eventList async2 /\
    trace s' = trace async2 ++ [AJoin 0].
Proof.
  exact (self_join_marks_joined clk 0 worker_running async2 eq_refl).
Defined.

Lemma join_failed_worker_raises_again_witness :
  fst (EventThread_join clk DriverThread 0 async3) = Exc (UserError 7) /\
  fst (EventThread_join clk MainThread 0
         (snd (EventThread_join clk DriverThread 0 async3))) =
    Exc (UserError 7).
Proof.
  exact (join_failed_worker_raises_again clk DriverThread MainThread 0
           worker_failed (UserError 7) async3 eq_refl eq_refl eq_refl).
Defined.

Lemma sync_call_failure_witness :
  exists s',
    _call clk DriverThread 0 false sync_boom = (Exc (UserError 7), s') /\
    lastCallTime_of s' 0 = Some 100 /\
    trace s' = [ASetLastCallTime 0 100; ACallable 0] /\
    user s' = 1%nat.
Proof.
  exact (proj1 (sync_call_failure clk DriverThread 0
                  (mkEvent boom 1 None false 0 []) sync_boom
                  eq_refl eq_refl)
           (UserError 7) 1%nat eq_refl).
Defined.

Lemma async_call_frame_witness :
  _call clk DriverThread 0 false async_anon =
    (Exc AttributeError, async_anon) /\
  (RThread 0 = RThread (length (heap async_eager)) /\
   threads_of (snd (_call clk DriverThread 0 false async_eager)) 0 =
     Some ([] ++ [length (heap async_eager)]) /\
   length (heap (snd (_call clk DriverThread 0 false async_eager))) =
     S (length (heap async_eager))) /\
  exists s',
    _call clk DriverThread 0 false async1 = (Ok (RThread 0), s') /\
    lastCallTime_of s' 0 = Some 0 /\
    threads_of s' 0 = Some [0%nat] /\
    user s' = 0%nat /\
    reads s' = 0%nat /\
    length (heap s') = 1%nat /\
    (forall i, (i < 0)%nat -> heap s' !! i = heap async1 !! i) /\
    trace s' = [ASpawn 0 0].
Proof.
  split; [|split].
  - exact (proj1 (async_call_frame clk DriverThread 0
                    (mkEvent anon 1 None true 0 []) async_anon
                    eq_refl eq_refl) eq_refl).
  - apply (proj1 (proj2 (async_call_frame clk DriverThread 0 boom_event
                           async_eager eq_refl eq_refl))).
    vm_compute; reflexivity.
  - apply (proj2 (proj2 (async_call_frame clk DriverThread 0 boom_event
                           async1 eq_refl eq_refl))).
    + discriminate.
    + reflexivity.
Defined.

Lemma poll_not_due_does_nothing_witness :
  exists s',
    callIfShouldCall clk3 DriverThread 0 sync_count = (Ok tt, s') /\
    _eventList s' = _eventList sync_count /\
    heap s' = heap sync_count /\
    user s' = user sync_count /\
    childException s' = childException sync_count /\
    trace s' = trace sync_count ++ [APoll 0].
Proof.
  apply (poll_not_due_does_nothing clk3 DriverThread 0 count_event
           sync_count eq_refl).
  vm_compute; discriminate.
Defined.

Lemma sync_poll_never_early_witness :
  exists t',
    lastCallTime_of (snd (callIfShouldCall clk DriverThread 0 sync_count)) 0 =
      Some t' /\
    (t' = 0 \/ 0 + 5 < t').
Proof.
  apply (sync_poll_never_early clk DriverThread 0 count_event sync_count).
  - intros n; vm_compute; discriminate.
  - reflexivity.
  - reflexivity.
Defined.

Lemma async_poll_keeps_timing_witness :
  timing <$> _eventList (snd (callIfShouldCall clk DriverThread 0 async1)) =
  timing <$> _eventList async1.
Proof.
  exact (proj1 (async_poll_keeps_timing clk DriverThread 0 boom_event async1
                  eq_refl eq_refl) eq_refl).
Defined.

Lemma async_double_dispatch_witness :
  length (heap async2) = 1%nat /\
  exists rest,
    trace (snd (callIfShouldCall clk DriverThread 0 async2)) =
      trace async2 ++ APoll 0 :: ASpawn 0 1 :: rest.
Proof.
  apply (async_double_dispatch clk DriverThread 0 boom_event async1 async2).
  - reflexivity.
  - reflexivity.
  - reflexivity.
  - vm_compute; reflexivity.
  - vm_compute; reflexivity.
  - vm_compute; reflexivity.
Defined.


Lemma pass_nothing_due_witness :
  exists s',
    pass clk3 sync_count = (Ok tt, s') /\
    _eventList s' = _eventList sync_count /\
    heap s' = heap sync_count /\
    user s' = user sync_count /\
    childException s' = childException sync_count /\
    reads s' = 1%nat /\
    trace s' = [APoll 0].
Proof.
  apply (pass_nothing_due clk3 sync_count).
  intros [|i] e H; vm_compute in H.
  - inversion H; subst; vm_compute; discriminate.
  - discriminate.
Defined.

Lemma stop_from_driver_raises_witness :
  stop clk DriverThread 1 async1 =
    (Exc RuntimeError,
     set_shouldContinue false (set_stopInProgress true async1)) /\
  _stopInProgress (snd (stop clk DriverThread 1 async1)) = true /\
  _eventList (snd (stop clk DriverThread 1 async1)) = _eventList async1 /\
  heap (snd (stop clk DriverThread 1 async1)) = heap async1.
Proof.
  exact (stop_from_driver_raises clk 1 (mkThread false true) async1
           eq_refl eq_refl).
Defined.

Lemma stop_ok_drained_witness :
  _stopInProgress (snd (stop clk MainThread 1 async_ok)) = false /\
  _shouldContinue (snd (stop clk MainThread 1 async_ok)) = false /\
  forall ev (e : @Event nat),
    _eventList (snd (stop clk MainThread 1 async_ok)) !! ev = Some e ->
    _threads e = [].
Proof.
  apply (stop_ok_drained clk MainThread 1 async_ok).
  - reflexivity.
  - vm_compute; reflexivity.
Defined.

Lemma stop_returns_when_workers_clean_witness :
  exists s', stop clk MainThread 1 async_ok = (Ok tt, s').
Proof.
  apply (stop_returns_when_workers_clean clk MainThread 1 async_ok).
  - reflexivity.
  - discriminate.
  - reflexivity.
  - intros [|i] t H; vm_compute in H.
    + inversion H; split; reflexivity.
    + discriminate.
  - intros [|ev] e H; vm_compute in H.
    + inversion H; repeat constructor.
    + discriminate.
Defined.

Lemma async_dispatch_then_join_witness :
  exists s1 s2,
    _call clk DriverThread 0 false async1 = (Ok (RThread 0), s1) /\
    EventThread_join clk MainThread 0 s1 = (Exc (UserError 7), s2) /\
    user s2 = 1%nat /\
    lastCallTime_of s2 0 = Some 100 /\
    heap s2 !! 0%nat =
      Some (mkEventThread 0 (Some (UserError 7)) true true false).
Proof.
  apply (async_dispatch_then_join clk DriverThread MainThread 0 boom_event
           async1).
  - reflexivity.
  - reflexivity.
  - discriminate.
  - reflexivity.
  - reflexivity.
  - vm_compute; discriminate.
Defined.

Lemma reap_keeps_live_workers_witness :
  heap (snd (_joinDeadThreads clk DriverThread 0 async2)) !! 0%nat =
    Some worker_running /\
  (false = false ->
   exists l,
     threads_of (snd (_joinDeadThreads clk DriverThread 0 async2)) 0 =
       Some l /\ 0%nat ∈ l).
Proof.
  apply (reap_keeps_live_workers clk DriverThread 0 boom_tracked 0
           worker_running async2).
  - reflexivity.
  - repeat constructor.
  - apply list_elem_of_here.
  - reflexivity.
  - reflexivity.
  - vm_compute; reflexivity.
Defined.

End FurtherRun.
